(** * MRZ scanner core: a shallow embedding of [app/pages/index.vue]

    The script part of the page holds the whole MRZ pipeline: the line
    extractor [extractMrzFromText], the normalizer [cleanMrzLine], the
    check-digit arithmetic ([getCharValue], [calculateCheckDigit],
    [verifyField]), the two decoders [parseTD3] and [parseTD1], and the
    resolver loops of [processMrz].

    Modelling conventions.
    - A JavaScript string is a [list ascii].  The OCR engine is configured
      with the whitelist A-Z, 0-9, '<' and emits blanks and line feeds, so
      the text lives in 7-bit ASCII; [toUpperCase] is modelled on that range
      (a-z are shifted, everything else is left alone), and a statement that
      relies on it for lengths or positions assumes [sevenBit] text.
    - A JavaScript number that can be NaN is an [option Z] ([None] is NaN).
      All the integers met here are tiny compared with 2^53, so the double
      arithmetic of the source is exact and [Z] stands for it.
    - A function that may throw returns an [option] ([None] is the throw);
      [null] results are [None] as well, as documented at each definition. *)

From Stdlib Require Import Ascii String List ZArith Lia Bool Arith PeanoNat.
From Stdlib Require Import Numbers.DecimalString.
Import ListNotations.

Open Scope char_scope.
Open Scope list_scope.
Open Scope nat_scope.

(** ** Strings *)

Definition jsstring := list ascii.

(** String literals of the source. *)
Definition lit (s : string) : jsstring := list_ascii_of_string s.

Definition code (c : ascii) : nat := nat_of_ascii c.

(** [/[0-9]/], [/[A-Z]/] and the other one-character classes of the source. *)
Definition isDigit (c : ascii) : bool := (48 <=? code c) && (code c <=? 57).
Definition isUpper (c : ascii) : bool := (65 <=? code c) && (code c <=? 90).
Definition isLower (c : ascii) : bool := (97 <=? code c) && (code c <=? 122).
Definition isLt (c : ascii) : bool := Ascii.eqb c "<".

(** [\s] and the characters removed by [trim]: TAB, LF, VT, FF, CR, SPACE and
    the no-break space U+00A0. *)
Definition isSpace (c : ascii) : bool :=
  ((9 <=? code c) && (code c <=? 13)) || (code c =? 32) || (code c =? 160).

(** [/[A-Z0-9<]/] *)
Definition isMrzChar (c : ascii) : bool := isUpper c || isDigit c || isLt c.
(** [/[A-Z<]/] *)
Definition isUpperOrLt (c : ascii) : bool := isUpper c || isLt c.
(** [/[SLCK]/] *)
Definition isSLCK (c : ascii) : bool :=
  Ascii.eqb c "S" || Ascii.eqb c "L" || Ascii.eqb c "C" || Ascii.eqb c "K".
(** [/[CL]/] *)
Definition isCL (c : ascii) : bool := Ascii.eqb c "C" || Ascii.eqb c "L".
(** [/[LCK]/] *)
Definition isLCK (c : ascii) : bool :=
  Ascii.eqb c "L" || Ascii.eqb c "C" || Ascii.eqb c "K".
(** [/[LCK<]/] *)
Definition isLCKLt (c : ascii) : bool := isLCK c || isLt c.

(** [toUpperCase] character by character, for 7-bit text: a-z are shifted
    and every other character is kept.  Above code 127 JavaScript does more
    (it shifts the accented letters, and U+00DF becomes the two letters SS),
    which a map over 8-bit characters does not follow; the statements that
    depend on what upper-casing does to the text carry [sevenBit]. *)
Definition toUpperChar (c : ascii) : ascii :=
  if isLower c then ascii_of_nat (code c - 32) else c.

Definition toUpperCase (s : jsstring) : jsstring := map toUpperChar s.

(** [s.substring(a, b)] for constant [a <= b]; both ends are clamped to the
    length of [s], which [skipn] and [firstn] do by themselves. *)
Definition substring (a b : nat) (s : jsstring) : jsstring :=
  firstn (b - a) (skipn a s).

(** [s.substring(a)] *)
Definition substringFrom (a : nat) (s : jsstring) : jsstring := skipn a s.

(** [s[i]] converted to a string, as happens when the value is handed to
    [parseInt] or to a template: out of range the source reads [undefined],
    whose string form is the word itself. *)
Definition indexStr (s : jsstring) (i : nat) : jsstring :=
  match nth_error s i with
  | Some c => [c]
  | None => lit "undefined"
  end.

(** [s.replace(/</g, '')] *)
Definition removeLt (s : jsstring) : jsstring :=
  filter (fun c => negb (isLt c)) s.

(** [s.replace(/</g, ' ')] *)
Definition ltToSpace (s : jsstring) : jsstring :=
  map (fun c => if isLt c then " " else c) s.

(** [s.replace(/\s/g, '')] *)
Definition stripSpaces (s : jsstring) : jsstring :=
  filter (fun c => negb (isSpace c)) s.

Fixpoint trimStart (s : jsstring) : jsstring :=
  match s with
  | c :: r => if isSpace c then trimStart r else s
  | [] => []
  end.

Definition trimEnd (s : jsstring) : jsstring := rev (trimStart (rev s)).

(** [s.trim()] *)
Definition trim (s : jsstring) : jsstring := trimEnd (trimStart s).

Fixpoint startsWith (p s : jsstring) : bool :=
  match p, s with
  | [], _ => true
  | a :: p', b :: s' => Ascii.eqb a b && startsWith p' s'
  | _ :: _, [] => false
  end.

(** [s.padEnd(n, '<')] *)
Definition padEnd (n : nat) (s : jsstring) : jsstring :=
  s ++ repeat "<" (n - length s).

(** [s.split(sep)] for a non-empty separator: the pieces between the
    successive, non-overlapping occurrences of [sep] read from the left.
    [skip] counts the characters of an occurrence still to be stepped over,
    [cur] is the piece being collected, reversed. *)
Fixpoint splitGo (sep : jsstring) (skip : nat) (cur : jsstring) (s : jsstring)
  : list jsstring :=
  match s with
  | [] => [rev cur]
  | c :: r =>
      match skip with
      | S k => splitGo sep k cur r
      | O =>
          if startsWith sep s
          then rev cur :: splitGo sep (length sep - 1) [] r
          else splitGo sep 0 (c :: cur) r
      end
  end.

Definition split (sep s : jsstring) : list jsstring := splitGo sep 0 [] s.

(** ** Numbers *)

(** The value of [c] as a digit in radix 10 or 16. *)
Definition digitValue (hex : bool) (c : ascii) : option Z :=
  if isDigit c then Some (Z.of_nat (code c) - 48)%Z
  else if hex && (65 <=? code c) && (code c <=? 70)
       then Some (Z.of_nat (code c) - 55)%Z
  else if hex && (97 <=? code c) && (code c <=? 102)
       then Some (Z.of_nat (code c) - 87)%Z
  else None.

(** The longest prefix of digits, read as a number; [None] when the prefix is
    empty. *)
Fixpoint readDigits (hex : bool) (acc : option Z) (s : jsstring) : option Z :=
  match s with
  | [] => acc
  | c :: r =>
      match digitValue hex c with
      | Some d =>
          let base := if hex then 16%Z else 10%Z in
          readDigits hex
            (Some (match acc with Some a => a * base + d | None => d end)%Z) r
      | None => acc
      end
  end.

(** The radix argument of [parseInt]: given as 10, or left out. *)
Inductive Radix := Radix10 | RadixAuto.

(** [parseInt(s, 10)] and [parseInt(s)]: leading white space is skipped, one
    sign is read, without a radix a [0x]/[0X] prefix selects base 16, and the
    longest run of digits is the value; no digit at all gives NaN. *)
Definition parseInt (s : jsstring) (radix : Radix) : option Z :=
  let s1 := trimStart s in
  let '(neg, s2) :=
    match s1 with
    | "-" :: r => (true, r)
    | "+" :: r => (false, r)
    | _ => (false, s1)
    end in
  let '(hex, s3) :=
    match radix, s2 with
    | RadixAuto, "0" :: "x" :: r => (true, r)
    | RadixAuto, "0" :: "X" :: r => (true, r)
    | _, _ => (false, s2)
    end in
  match readDigits hex None s3 with
  | Some v => Some (if neg then (- v)%Z else v)
  | None => None
  end.

(** [`${n}`] for an integer *)
Definition showZ (n : Z) : jsstring :=
  lit (NilZero.string_of_int (Z.to_int n)).

(** [`${n}`] for a number that may be NaN *)
Definition showNumber (n : option Z) : jsstring :=
  match n with
  | Some z => showZ z
  | None => lit "NaN"
  end.

(** ** The 7-3-1 check digit *)

(** [getCharValue]: the argument is always a one-character string [data[i]]. *)
Definition getCharValue (char : ascii) : Z :=
  if isDigit char then (Z.of_nat (code char) - 48)%Z   (* parseInt(char, 10) *)
  else if isUpper char then (Z.of_nat (code char) - 55)%Z (* A=10, Z=35 *)
  else if isLt char then 0%Z
  else 0%Z.

Definition weights : list Z := [7; 3; 1]%Z.

(** The body of the [for] loop of [calculateCheckDigit]: [rest] is what is
    left of [data] from index [i] on, [sum] the running total. *)
Fixpoint checkDigitLoop (rest : jsstring) (i : nat) (sum : Z) : Z :=
  match rest with
  | [] => sum
  | c :: r =>
      checkDigitLoop r (S i) (sum + getCharValue c * nth (i mod 3) weights 0)%Z
  end.

Definition calculateCheckDigit (data : jsstring) : Z :=
  (checkDigitLoop data 0 0 mod 10)%Z.

(** [verifyField]: [None] is the [null] of a passed check, [Some msg] the
    error string. *)
Definition verifyField (fieldValue checkDigitChar type : jsstring) (line : Z)
  : option jsstring :=
  let calculated := calculateCheckDigit fieldValue in
  match parseInt checkDigitChar Radix10 with
  | None =>
      Some (lit "Invalid check digit format for " ++ type ++ lit " (Line "
            ++ showZ line ++ lit "): '" ++ checkDigitChar ++ lit "'")
  | Some expected =>
      if negb (calculated =? expected)%Z
      then Some (type ++ lit " check failed (Line " ++ showZ line
                 ++ lit "). Expected " ++ showZ calculated ++ lit ", found "
                 ++ showZ expected ++ lit ". Value: " ++ fieldValue)
      else None
  end.

(** ** Line extractor *)

(** The predicate handed to [lines.filter] in [extractMrzFromText]. *)
Definition looksLikeMrz (line : jsstring) : bool :=
  let cleanLine := stripSpaces line in
  let hasMrzChars := existsb isMrzChar cleanLine in
  let isValidLength := (20 <=? length cleanLine) && (length cleanLine <=? 100) in
  let chevronCount := length (filter isLt cleanLine) in
  hasMrzChars && isValidLength
  && ((2 <=? chevronCount) || (length cleanLine =? 30)
      || (length cleanLine =? 36) || (length cleanLine =? 44)).

Definition extractMrzFromText (text : jsstring) : list jsstring :=
  let lines := map trim (split ["010"] text) in
  let mrzLines := filter looksLikeMrz lines in
  map (fun l => toUpperCase (stripSpaces l)) mrzLines.

(** ** Line normalizer *)

(** [/^P[SLCK][A-Z<]{3}/] and [/^I[SLCK][A-Z<]{3}/], [p] being the first
    letter. *)
Definition startMatches (p : ascii) (s : jsstring) : bool :=
  match s with
  | a :: b :: c :: d :: e :: _ =>
      Ascii.eqb a p && isSLCK b && isUpperOrLt c && isUpperOrLt d
      && isUpperOrLt e
  | _ => false
  end.

(** Rule 1 of [cleanMrzLine]. *)
Definition fixStart (cleaned : jsstring) : jsstring :=
  let cleaned1 :=
    if startMatches "P" cleaned then lit "P<" ++ substringFrom 2 cleaned
    else cleaned in
  if startMatches "I" cleaned1 then lit "I<" ++ substringFrom 2 cleaned1
  else cleaned1.

(** [<[CL](?=[A-Z])] read at the head of [s]. *)
Definition sepAt (s : jsstring) : bool :=
  match s with
  | a :: b :: c :: _ => isLt a && isCL b && isUpper c
  | _ => false
  end.

(** The scan of [/(^|[^<])<[CL](?=[A-Z])/g] from a position after the start
    of the line, where only the alternative [[^<]] can open a match: a match
    takes three characters and is replaced by its first one and two fillers,
    and the scan resumes behind it. *)
Fixpoint fixSepScan (s : jsstring) : jsstring :=
  match s with
  | [] => []
  | c :: r =>
      match r with
      | _ :: _ :: r2 =>
          if negb (isLt c) && sepAt r
          then c :: "<" :: "<" :: fixSepScan r2
          else c :: fixSepScan r
      | _ => c :: fixSepScan r
      end
  end.

(** Rule 2 of [cleanMrzLine]: at the start of the line the alternative [^]
    is tried first. *)
Definition fixSeparators (cleaned : jsstring) : jsstring :=
  match cleaned with
  | _ :: _ :: r2 =>
      if sepAt cleaned then "<" :: "<" :: fixSepScan r2
      else fixSepScan cleaned
  | _ => fixSepScan cleaned
  end.

(** [cleaned.match(/[LCK<]{3,}$/)]: the index and the text of the leftmost
    match, that is of the first suffix of at least three characters which are
    all in the class. *)
Fixpoint matchTail (s : jsstring) (index : nat) : option (nat * jsstring) :=
  match s with
  | [] => None
  | _ :: r =>
      if forallb isLCKLt s && (3 <=? length s) then Some (index, s)
      else matchTail r (S index)
  end.

(** Rule 3 of [cleanMrzLine]. *)
Definition fixTail (cleaned : jsstring) : jsstring :=
  match matchTail cleaned 0 with
  | Some (index, tail) =>
      if existsb isLCK tail
      then substring 0 index cleaned
           ++ map (fun c => if isLCK c then "<" else c) tail
      else cleaned
  | None => cleaned
  end.

(** Rule 4 of [cleanMrzLine]. *)
Definition fixLength (cleaned : jsstring) : jsstring :=
  let cleaned1 :=
    if startsWith (lit "P<") cleaned && (length cleaned <? 44)
       && (30 <? length cleaned)
    then padEnd 44 cleaned else cleaned in
  if startsWith (lit "I<") cleaned1 && (length cleaned1 <? 30)
     && (20 <? length cleaned1)
  then padEnd 30 cleaned1 else cleaned1.

Definition cleanMrzLine (line : jsstring) : jsstring :=
  fixLength (fixTail (fixSeparators (fixStart (toUpperCase line)))).

(** ** Decoders *)

Inductive DocumentType := PASSPORT | ID_CARD.
Inductive VerificationStatus := VALID | INVALID.

Record Names := {
  surname : jsstring;
  given_names : jsstring
}.

Record UnifiedMrzResult := {
  document_type : DocumentType;
  document_number : jsstring;
  series : jsstring;
  nationality : jsstring;
  birth_date : jsstring;
  sex : option ascii;
  expiry_date : jsstring;
  personal_number : jsstring;
  names : Names;
  verification_status : VerificationStatus;
  errors : list jsstring;
  raw_lines : list jsstring;
  cleaned_lines : list jsstring
}.

(** [if (err) errors.push(err)]: [null] and the empty string are falsy. *)
Definition pushError (errors : list jsstring) (err : option jsstring)
  : list jsstring :=
  match err with
  | Some (c :: m) => errors ++ [c :: m]
  | Some [] => errors
  | None => errors
  end.

(** [formatYMD], written out identically in both decoders. *)
Definition formatYMD (val : jsstring) : jsstring :=
  if negb (length val =? 6) || existsb isLt val then val
  else
    let yy := parseInt (substring 0 2 val) RadixAuto in
    let mm := substring 2 4 val in
    let dd := substring 4 6 val in
    let year :=
      if match yy with Some y => (50 <? y)%Z | None => false end
      then lit "19" ++ showNumber yy
      else lit "20" ++ showNumber yy in
    year ++ lit "-" ++ mm ++ lit "-" ++ dd.

(** [nameParts[0]] and [nameParts.length > 1 ? nameParts[1] : ''], each
    with its fillers turned into blanks and trimmed. *)
Definition surnameOf (nameParts : list jsstring) : jsstring :=
  trim (ltToSpace (nth 0 nameParts [])).

Definition givenNamesOf (nameParts : list jsstring) : jsstring :=
  if 1 <? length nameParts then trim (ltToSpace (nth 1 nameParts [])) else [].

Definition statusOf (errors : list jsstring) : VerificationStatus :=
  if length errors =? 0 then VALID else INVALID.

(** [parseTD3]; [None] stands for the TypeError raised when [lines[0]] or
    [lines[1]] is missing. *)
Definition parseTD3 (lines : list jsstring) : option UnifiedMrzResult :=
  match lines with
  | l1 :: l2 :: _ =>
      let errors := [] in
      let nameSection := substring 5 44 l1 in
      let nameParts := split (lit "<<") nameSection in
      let surname := surnameOf nameParts in
      let givenNames := givenNamesOf nameParts in
      let docNum := substring 0 9 l2 in
      let docNumCheck := indexStr l2 9 in
      let nationality := removeLt (substring 10 13 l2) in
      let dob := substring 13 19 l2 in
      let dobCheck := indexStr l2 19 in
      let sex := nth_error l2 20 in
      let expiry := substring 21 27 l2 in
      let expiryCheck := indexStr l2 27 in
      let personalNum_raw := substring 28 42 l2 in
      let personalNum := removeLt personalNum_raw in
      let personalCheck := indexStr l2 42 in
      let compositeCheck := indexStr l2 43 in
      let errors :=
        pushError errors (verifyField docNum docNumCheck (lit "Document Number") 2) in
      let errors :=
        pushError errors (verifyField dob dobCheck (lit "Date of Birth") 2) in
      let errors :=
        pushError errors (verifyField expiry expiryCheck (lit "Expiration Date") 2) in
      let errors :=
        pushError errors
          (verifyField personalNum_raw personalCheck (lit "Personal Number") 2) in
      let compositeString :=
        substring 0 10 l2 ++ substring 13 20 l2 ++ substring 21 43 l2 in
      let errors :=
        pushError errors
          (verifyField compositeString compositeCheck (lit "Composite (Final)") 2) in
      let series := substring 0 2 docNum in
      Some {| document_type := PASSPORT;
              document_number := removeLt docNum;
              series := removeLt series;
              nationality := nationality;
              birth_date := formatYMD dob;
              sex := sex;
              expiry_date := formatYMD expiry;
              personal_number := personalNum;
              names := {| surname := surname; given_names := givenNames |};
              verification_status := statusOf errors;
              errors := errors;
              raw_lines := lines;
              cleaned_lines := lines |}
  | _ => None
  end.

(** [l3.replace(/<+$/, '')] *)
Definition dropTrailingLt (s : jsstring) : jsstring :=
  rev ((fix drop (r : jsstring) : jsstring :=
          match r with
          | c :: r' => if isLt c then drop r' else r
          | [] => []
          end) (rev s)).

(** [parseTD1]; [None] stands for the TypeError raised when one of the three
    lines is missing. *)
Definition parseTD1 (lines : list jsstring) : option UnifiedMrzResult :=
  match lines with
  | l1 :: l2 :: l3 :: _ =>
      let errors := [] in
      let docNum := substring 5 14 l1 in
      let docNumCheck := indexStr l1 14 in
      let optional1_raw := substring 15 30 l1 in
      let personalNum := removeLt optional1_raw in
      let dob := substring 0 6 l2 in
      let dobCheck := indexStr l2 6 in
      let sex := nth_error l2 7 in
      let expiry := substring 8 14 l2 in
      let expiryCheck := indexStr l2 14 in
      let nationality := removeLt (substring 15 18 l2) in
      let compositeString :=
        substring 5 30 l1 ++ substring 0 7 l2 ++ substring 8 15 l2
        ++ substring 18 29 l2 in
      let compositeCheck := indexStr l2 29 in
      let errors :=
        pushError errors (verifyField docNum docNumCheck (lit "Document Number") 1) in
      let errors :=
        pushError errors (verifyField dob dobCheck (lit "Date of Birth") 2) in
      let errors :=
        pushError errors (verifyField expiry expiryCheck (lit "Expiration Date") 2) in
      let errors :=
        pushError errors
          (verifyField compositeString compositeCheck (lit "Composite (Final)") 2) in
      let l3_clean := dropTrailingLt l3 in
      let nameParts := split (lit "<<") l3_clean in
      let surname := surnameOf nameParts in
      let givenNames := givenNamesOf nameParts in
      let series := substring 0 2 docNum in
      Some {| document_type := ID_CARD;
              document_number := removeLt docNum;
              series := removeLt series;
              nationality := nationality;
              birth_date := formatYMD dob;
              sex := sex;
              expiry_date := formatYMD expiry;
              personal_number := personalNum;
              names := {| surname := surname; given_names := givenNames |};
              verification_status := statusOf errors;
              errors := errors;
              raw_lines := lines;
              cleaned_lines := lines |}
  | _ => None
  end.

(** ** Format resolver *)

(** [tryParseCustom]: [None] is the [null] returned when neither shape fits
    or when the decoder threw. *)
Definition tryParseCustom (lines : list jsstring) : option UnifiedMrzResult :=
  if (length lines =? 2) && (length (nth 0 lines []) =? 44)
     && (length (nth 1 lines []) =? 44)
  then parseTD3 lines
  else if (length lines =? 3) && (length (nth 0 lines []) =? 30)
          && (length (nth 1 lines []) =? 30) && (length (nth 2 lines []) =? 30)
  then parseTD1 lines
  else None.

Definition getCandidates (line : jsstring) (targetLen : nat) : list jsstring :=
  (if length line =? targetLen then [line] else [])
  ++ (if targetLen <? length line
      then map (fun i => substring i (i + targetLen) line)
               (seq 0 (length line - targetLen + 1))
      else []).

(** [res && res.verification_status === 'VALID'] *)
Definition isValid (res : option UnifiedMrzResult) : bool :=
  match res with
  | Some r => match verification_status r with VALID => true | INVALID => false end
  | None => false
  end.

(** [!result || result.verification_status === 'INVALID'] *)
Definition isNullOrInvalid (res : option UnifiedMrzResult) : bool :=
  match res with
  | Some r => match verification_status r with INVALID => true | VALID => false end
  | None => true
  end.

(** The inner [for (const c2 of l2Candidates)] of the TD-3 attempt; the
    value is [result] when the loop is left, by [break] or at its end. *)
Fixpoint td3Inner (c1 : jsstring) (l2Candidates : list jsstring)
  (result : option UnifiedMrzResult) : option UnifiedMrzResult :=
  match l2Candidates with
  | [] => result
  | c2 :: rest =>
      let res := tryParseCustom [c1; c2] in
      if isValid res then res
      else td3Inner c1 rest (match res with Some _ => res | None => result end)
  end.

(** The outer [for (const c1 of l1Candidates)] of the TD-3 attempt. *)
Fixpoint td3Outer (l1Candidates l2Candidates : list jsstring)
  (result : option UnifiedMrzResult) : option UnifiedMrzResult :=
  match l1Candidates with
  | [] => result
  | c1 :: rest =>
      let result := td3Inner c1 l2Candidates result in
      if isValid result then result else td3Outer rest l2Candidates result
  end.

(** [mrzLines.slice(-n)] *)
Definition sliceLast (n : nat) (mrzLines : list jsstring) : list jsstring :=
  skipn (length mrzLines - n) mrzLines.

(** The block [// Try TD-3 (Last 2 lines, target 44)]. *)
Definition tryTD3 (mrzLines : list jsstring) (result : option UnifiedMrzResult)
  : option UnifiedMrzResult :=
  if match result with None => true | Some _ => false end
     && (2 <=? length mrzLines)
  then
    let last2 := sliceLast 2 mrzLines in
    let l1Candidates := getCandidates (nth 0 last2 []) 44 in
    let l2Candidates := getCandidates (nth 1 last2 []) 44 in
    td3Outer l1Candidates l2Candidates result
  else result.

(** The three nested loops of the TD-1 attempt, innermost first. *)
Fixpoint td1Inner (c1 c2 : jsstring) (l3C : list jsstring)
  (result : option UnifiedMrzResult) : option UnifiedMrzResult :=
  match l3C with
  | [] => result
  | c3 :: rest =>
      let res := tryParseCustom [c1; c2; c3] in
      if isValid res then res
      else td1Inner c1 c2 rest
             (match res, result with
              | Some _, None => res
              | _, _ => result
              end)
  end.

Fixpoint td1Middle (c1 : jsstring) (l2C l3C : list jsstring)
  (result : option UnifiedMrzResult) : option UnifiedMrzResult :=
  match l2C with
  | [] => result
  | c2 :: rest =>
      let result := td1Inner c1 c2 l3C result in
      if isValid result then result else td1Middle c1 rest l3C result
  end.

Fixpoint td1Outer (l1C l2C l3C : list jsstring)
  (result : option UnifiedMrzResult) : option UnifiedMrzResult :=
  match l1C with
  | [] => result
  | c1 :: rest =>
      let result := td1Middle c1 l2C l3C result in
      if isValid result then result else td1Outer rest l2C l3C result
  end.

(** The block [// Try TD-1 (Last 3 lines, target 30)]. *)
Definition tryTD1 (mrzLines : list jsstring) (result : option UnifiedMrzResult)
  : option UnifiedMrzResult :=
  if isNullOrInvalid result && (3 <=? length mrzLines)
  then
    let last3 := sliceLast 3 mrzLines in
    let l1C := getCandidates (nth 0 last3 []) 30 in
    let l2C := getCandidates (nth 1 last3 []) 30 in
    let l3C := getCandidates (nth 2 last3 []) 30 in
    td1Outer l1C l2C l3C result
  else result.

(** What [processMrz] does with the recognized text. *)
Inductive Outcome :=
| Parsed (result : UnifiedMrzResult)
| NotDetected   (* 'Could not detect MRZ in the document...' *)
| NotFitted.    (* 'MRZ detected but parsing failed...' *)

(** The two attempts in a row, from [let result = null]. *)
Definition resolveLines (mrzLines : list jsstring) : option UnifiedMrzResult :=
  tryTD1 mrzLines (tryTD3 mrzLines None).

(** The part of [processMrz] that follows the OCR call. *)
Definition processText (text : jsstring) : Outcome :=
  let mrzLinesRaw := extractMrzFromText text in
  let mrzLines := map cleanMrzLine mrzLinesRaw in
  if length mrzLines <? 2 then NotDetected
  else match resolveLines mrzLines with
       | Some result => Parsed result
       | None => NotFitted
       end.

(** ** What the page shows *)

(** [lines.join(sep)] *)
Fixpoint join (sep : jsstring) (lines : list jsstring) : jsstring :=
  match lines with
  | [] => []
  | [l] => l
  | l :: rest => l ++ sep ++ join sep rest
  end.

(** The entries of [details] and the object stored in [parsedResult]. *)
Module Detail.
Record t := { label : jsstring; value : jsstring }.
End Detail.

Module MrzResult.
Record t := {
  documentType : jsstring;
  documentNumber : jsstring;
  firstName : jsstring;
  lastName : jsstring;
  nationality : jsstring;
  birthDate : jsstring;
  sex : option ascii;
  expirationDate : jsstring;
  issuingCountry : jsstring;
  valid : bool;
  details : list Detail.t;
  personal_number : jsstring;
  unifiedJson : UnifiedMrzResult
}.
End MrzResult.

(** The object literal assigned to [parsedResult.value]. *)
Definition toMrzResult (result : UnifiedMrzResult) : MrzResult.t :=
  {| MrzResult.documentType :=
       match document_type result with
       | PASSPORT => lit "Passport (TD-3)"
       | ID_CARD => lit "ID Card (TD-1)"
       end;
     MrzResult.documentNumber := document_number result;
     MrzResult.firstName := given_names (names result);
     MrzResult.lastName := surname (names result);
     MrzResult.nationality := nationality result;
     MrzResult.birthDate := birth_date result;
     MrzResult.sex := sex result;
     MrzResult.expirationDate := expiry_date result;
     MrzResult.issuingCountry := nationality result;
     MrzResult.valid :=
       match verification_status result with VALID => true | INVALID => false end;
     MrzResult.details :=
       map (fun e => {| Detail.label := lit "Error"; Detail.value := e |})
           (errors result);
     MrzResult.personal_number := personal_number result;
     MrzResult.unifiedJson := result |}.

(** The refs of the page that [processMrz] writes once the text is
    recognized. *)
Record PageState := {
  rawMrzText : jsstring;
  parsedResult : option MrzResult.t;
  error : option jsstring;
  progressStatus : jsstring
}.

Definition notDetectedMessage : jsstring :=
  lit "Could not detect MRZ in the document. Please ensure the MRZ area is clearly visible and crisp.".

Definition notFittedMessage : jsstring :=
  lit "MRZ detected but parsing failed. Could not fit to TD-3 (44) or TD-1 (30) standards.".

(** [processMrz] from the recognized [text] on, when nothing throws:
    [parsedResult], [error] and [rawMrzText] have been reset before, and
    [progressStatus] is 'Parsing MRZ...' when the parsing starts. *)
Definition afterRecognition (text : jsstring) : PageState :=
  let mrzLinesRaw := extractMrzFromText text in
  let mrzLines := map cleanMrzLine mrzLinesRaw in
  if length mrzLines <? 2
  then {| rawMrzText := text;
          parsedResult := None;
          error := Some notDetectedMessage;
          progressStatus := lit "Parsing MRZ..." |}
  else
    let result := resolveLines mrzLines in
    {| rawMrzText := join ["010"] mrzLines;
       parsedResult :=
         match result with
         | Some r => Some (toMrzResult r)
         | None => None
         end;
       error :=
         match result with
         | Some _ => None
         | None => Some notFittedMessage
         end;
       progressStatus := lit "Complete!" |}.

(** * Notions used to state the properties *)

(** ** Check digit *)

(** The value table of the 7-3-1 rule as the specification words it: a
    decimal digit counts its numeric value, a letter its place from A = 10 to
    Z = 35, which is the place of the character in this alphabet; the filler
    and every other character count 0. *)
Definition icaoAlphabet : jsstring := lit "0123456789ABCDEFGHIJKLMNOPQRSTUVWXYZ".

Fixpoint indexOf (c : ascii) (l : jsstring) (k : nat) : option nat :=
  match l with
  | [] => None
  | x :: r => if Ascii.eqb c x then Some k else indexOf c r (S k)
  end.

Definition icaoValue (c : ascii) : Z :=
  match indexOf c icaoAlphabet 0 with
  | Some k => Z.of_nat k
  | None => 0%Z
  end.

Definition sumZ (l : list Z) : Z := fold_right Z.add 0%Z l.

(** [sum over i of value(s[i]) * w[i mod 3]], the positions counted from
    [from]. *)
Definition weightedSum (value : ascii -> Z) (from : nat) (s : jsstring) : Z :=
  sumZ (map (fun i => (value (nth i s " ") * nth ((from + i) mod 3) [7; 3; 1] 0)%Z)
            (seq 0 (length s))).

(** ** Example lines *)

(** Two clean passport lines and a 30-column identity-card triple. *)
Definition passportLine1 : jsstring :=
  lit "P<KGZSURNAME<<NAME<<<<<<<<<<<<<<<<<<<<<<<<<<".
Definition passportLine2 : jsstring :=
  lit "A1234567<6KGZ9801015M2801016<<<<<<<<<<<<<<06".
Definition cardLine1 : jsstring := lit "I<KGZ12345678<8<<<<<<<<<<<<<<<".
Definition cardLine2 : jsstring := lit "9801015M2801016KGZ<<<<<<<<<<<2".
Definition cardLine3 : jsstring := lit "SURNAME<<NAME<<<<<<<<<<<<<<<<<".

(** A valid second passport line with the birth date 050101. *)
Definition bornIn2005Line2 : jsstring :=
  lit "A1234567<6KGZ0501013M2801016<<<<<<<<<<<<<<00".

(** A second passport line with wrong check digits: below [cardLine1] and
    [passportLine1] both attempts decode and neither validates. *)
Definition damagedLine2 : jsstring :=
  lit "A1234567<8KGZ9801015M2801015<<<<<<<<<<<<<<06".

(** A second passport line one column too long, so that it has two
    44-column windows, neither of which validates. *)
Definition overlongLine2 : jsstring :=
  lit "A1234567<8KGZ9801015M2801015<<<<<<<<<<<<<<069".

(** ** Resolver *)

(** What the TD-3 loops can leave in [result]: nothing, or a passport. *)
Definition passportOrNull (result : option UnifiedMrzResult) : Prop :=
  forall r, result = Some r -> document_type r = PASSPORT.

(** What the TD-1 loops can leave in [result] when they start from the
    record [r0]: [r0] itself, or a VALID identity-card record. *)
Definition keptOrValidCard (r0 : UnifiedMrzResult)
  (result : option UnifiedMrzResult) : Prop :=
  result = Some r0
  \/ exists r, result = Some r /\ document_type r = ID_CARD
               /\ verification_status r = VALID.

(** ** Line extractor *)

(** The keeping rule in the words of the specification, on a trimmed and
    whitespace-stripped line. *)
Definition keepsLine (l : jsstring) : Prop :=
  (exists c, In c l /\ isMrzChar c = true)
  /\ 20 <= length l <= 100
  /\ (2 <= count_occ ascii_dec l "<"
      \/ length l = 30 \/ length l = 36 \/ length l = 44).

(** The same rule as a test. *)
Definition keepsLineb (l : jsstring) : bool :=
  existsb isMrzChar l
  && ((20 <=? length l) && (length l <=? 100))
  && ((2 <=? count_occ ascii_dec l "<") || (length l =? 30)
      || (length l =? 36) || (length l =? 44)).

(** ** Name splitting *)

(** The text before the first double filler of [s], and the whole text
    behind it when there is one. *)
Fixpoint cutAtSep (s : jsstring) : jsstring * option jsstring :=
  match s with
  | [] => ([], None)
  | c :: r =>
      if startsWith (lit "<<") s then ([], Some (tl r))
      else let (a, b) := cutAtSep r in (c :: a, b)
  end.

Definition beforeSep (s : jsstring) : jsstring := fst (cutAtSep s).
Definition afterSep (s : jsstring) : option jsstring := snd (cutAtSep s).

(** The names the decoders draw from a name zone: the surname is what
    stands before the first separator, the given names are what stands
    between the first separator and the next one. *)
Definition namesOfZone (zone : jsstring) : Names :=
  {| surname := trim (ltToSpace (beforeSep zone));
     given_names :=
       match afterSep zone with
       | Some rest => trim (ltToSpace (beforeSep rest))
       | None => []
       end |}.

(** A first line with a second separator followed by more text. *)
Definition twoSeparatorsLine1 : jsstring :=
  lit "P<KGZSURNAME<<GIVEN<<OTHER<<<<<<<<<<<<<<<<<<".

(** ** Normalizer: positions *)

(** [s @ i] is the character at index [i], a blank outside the line: a blank
    is in none of the classes the repair rules look at. *)
Definition at_ (s : jsstring) (i : nat) : ascii := nth i s " ".
Notation "s @ i" := (at_ s i) (at level 20, left associativity).

(** The four characters of an occurrence that rule 2 repairs away from the
    start of the line: a non-filler, a filler, C or L, and a letter. *)
Definition sepCond (a b c d : ascii) : bool :=
  negb (isLt a) && isLt b && isCL c && isUpper d.

(** Index [i] holds the C or L of an occurrence that the scan repairs. *)
Definition scanPos (s : jsstring) (i : nat) : bool :=
  match i with
  | S (S k) => sepCond (s @ k) (s @ S k) (s @ S (S k)) (s @ S (S (S k)))
  | _ => false
  end.

(** Index [i] holds the C or L of an occurrence that rule 2 repairs: the
    character before it is a filler, the one behind it is a letter, and the
    filler stands at the start of the line or behind a non-filler. *)
Definition sepPos (s : jsstring) (i : nat) : bool :=
  match i with
  | 0 => false
  | 1 => isLt (s @ 0) && isCL (s @ 1) && isUpper (s @ 2)
  | S (S k) => sepCond (s @ k) (s @ S k) (s @ S (S k)) (s @ S (S (S k)))
  end.

(** ** Normalizer: what the repair rules preserve *)

(** [t] is [s] with some letters turned into fillers. *)
Definition fills (s t : jsstring) : Prop :=
  length t = length s
  /\ forall i, t @ i = s @ i \/ (t @ i = "<" /\ isUpper (s @ i) = true).

(** No lower-case letter anywhere: the fixed points of [toUpperCase]. *)
Definition noLower (s : jsstring) : Prop := forall i, isLower (s @ i) = false.

(** Rule 1 does not apply. *)
Definition startClean (s : jsstring) : Prop :=
  startMatches "P" s = false /\ startMatches "I" s = false.

(** Rule 2 finds nothing to repair. *)
Definition sepClean (s : jsstring) : Prop := forall i, sepPos s i = false.

Definition toFiller (c : ascii) : ascii := if isLCK c then "<" else c.

(** Rule 3 as a recursion over the line: the first suffix of three or more
    characters of the class [LCK<] is turned into fillers. *)
Fixpoint tailRepair (s : jsstring) : jsstring :=
  match s with
  | [] => []
  | c :: r =>
      if forallb isLCKLt s && (3 <=? length s) then map toFiller s
      else c :: tailRepair r
  end.

(** The line after rules 1 to 3, before the length repair. *)
Definition repaired (line : jsstring) : jsstring :=
  fixTail (fixSeparators (fixStart (toUpperCase line))).

(** A noisy first line: lower case, a misread separator after the document
    letter, a misread name separator and a misread filler tail. *)
Definition noisyLine1 : jsstring :=
  lit "pkkgzsurname<lname<<<<<<<<<<<<<<<<<<<<<<<llk".

(** A first line cut short by the OCR whose last character is a K. *)
Definition shortLine1 : jsstring := lit "P<KGZABCDEFGHIJABCDEFGHIJABCDEFGHIK".

(** * Notions used to state further properties *)

(** ** Resolver *)

(** The two shapes [tryParseCustom] accepts. *)
Definition twoBy44 (lines : list jsstring) : Prop :=
  exists a b, lines = [a; b] /\ length a = 44 /\ length b = 44.

Definition threeBy30 (lines : list jsstring) : Prop :=
  exists a b c,
    lines = [a; b; c] /\ length a = 30 /\ length b = 30 /\ length c = 30.


(** The blocks tried by two and by three nested loops over candidate
    lists, in the order in which the loops reach them. *)
Definition blocks2 (l1C l2C : list jsstring) : list (list jsstring) :=
  flat_map (fun c1 => map (fun c2 => [c1; c2]) l2C) l1C.

Definition blocks3 (l1C l2C l3C : list jsstring) : list (list jsstring) :=
  flat_map (fun c1 => flat_map (fun c2 => map (fun c3 => [c1; c2; c3]) l3C) l2C)
           l1C.

(** The blocks of the TD-3 attempt: a 44-column window of the line before
    the last with a 44-column window of the last line. *)
Definition td3Blocks (mrzLines : list jsstring) : list (list jsstring) :=
  let last2 := sliceLast 2 mrzLines in
  blocks2 (getCandidates (nth 0 last2 []) 44) (getCandidates (nth 1 last2 []) 44).

(** The blocks of the TD-1 attempt: 30-column windows of the last three
    lines. *)
Definition td1Blocks (mrzLines : list jsstring) : list (list jsstring) :=
  let last3 := sliceLast 3 mrzLines in
  blocks3 (getCandidates (nth 0 last3 []) 30) (getCandidates (nth 1 last3 []) 30)
          (getCandidates (nth 2 last3 []) 30).

(** The block decodes to a VALID record; the block decodes at all. *)
Definition validBlock (lines : list jsstring) : bool :=
  isValid (tryParseCustom lines).

Definition decodedBlock (lines : list jsstring) : bool :=
  match tryParseCustom lines with Some _ => true | None => false end.

(** One loop over a list of blocks with the update of the TD-3 loops (every
    decode replaces [result]) and with the update of the TD-1 loops (a
    decode is kept only while [result] is empty); both stop at the first
    VALID decode. *)
Fixpoint scanLast (blocks : list (list jsstring))
  (result : option UnifiedMrzResult) : option UnifiedMrzResult :=
  match blocks with
  | [] => result
  | b :: rest =>
      let res := tryParseCustom b in
      if isValid res then res
      else scanLast rest (match res with Some _ => res | None => result end)
  end.

Fixpoint scanFirst (blocks : list (list jsstring))
  (result : option UnifiedMrzResult) : option UnifiedMrzResult :=
  match blocks with
  | [] => result
  | b :: rest =>
      let res := tryParseCustom b in
      if isValid res then res
      else scanFirst rest
             (match res, result with
              | Some _, None => res
              | _, _ => result
              end)
  end.


(** The last two lines are wide enough for a TD-3 block, the last three
    for a TD-1 block. *)
Definition fits44 (mrzLines : list jsstring) : Prop :=
  2 <= length mrzLines
  /\ 44 <= length (nth 0 (sliceLast 2 mrzLines) [])
  /\ 44 <= length (nth 1 (sliceLast 2 mrzLines) []).

Definition fits30 (mrzLines : list jsstring) : Prop :=
  3 <= length mrzLines
  /\ 30 <= length (nth 0 (sliceLast 3 mrzLines) [])
  /\ 30 <= length (nth 1 (sliceLast 3 mrzLines) [])
  /\ 30 <= length (nth 2 (sliceLast 3 mrzLines) []).

(** A valid second passport line behind one character of noise. *)
Definition shiftedLine2 : jsstring := "X" :: passportLine2.


(** ** Decoders *)

(** The check at column [k] of [line] passes for [field]: the column holds
    a decimal digit, and the digit is the 7-3-1 digit of the field. *)
Definition checkOk (field line : jsstring) (k : nat) : bool :=
  match nth_error line k with
  | Some c =>
      isDigit c && (calculateCheckDigit field =? Z.of_nat (code c) - 48)%Z
  | None => false
  end.

(** The five checks of a TD3 second line and the four checks of a TD1
    block, in the order in which the decoders run them. *)
Definition td3Checks (l2 : jsstring) : list bool :=
  [ checkOk (substring 0 9 l2) l2 9;
    checkOk (substring 13 19 l2) l2 19;
    checkOk (substring 21 27 l2) l2 27;
    checkOk (substring 28 42 l2) l2 42;
    checkOk (substring 0 10 l2 ++ substring 13 20 l2 ++ substring 21 43 l2) l2 43 ].

Definition td1Checks (l1 l2 : jsstring) : list bool :=
  [ checkOk (substring 5 14 l1) l1 14;
    checkOk (substring 0 6 l2) l2 6;
    checkOk (substring 8 14 l2) l2 14;
    checkOk (substring 5 30 l1 ++ substring 0 7 l2 ++ substring 8 15 l2
             ++ substring 18 29 l2) l2 29 ].

(** The number of checks that fail. *)
Definition failures (checks : list bool) : nat := length (filter negb checks).

(** A valid second passport line whose composite digit has been changed. *)
Definition compositeDamagedLine2 : jsstring :=
  lit "A1234567<6KGZ9801015M2801016<<<<<<<<<<<<<<07".


(** ** Normalizer *)

(** [t] is [s] with some of its letters S, L, C, K turned into fillers. *)
Definition repairs (s t : jsstring) : Prop :=
  length t = length s
  /\ forall i, t @ i = s @ i \/ (t @ i = "<" /\ isSLCK (s @ i) = true).


(** ** Decoded fields *)

(** No filler in [s]; neither end of [s] is white space. *)
Definition noFiller (s : jsstring) : Prop := forall c, In c s -> isLt c = false.

Definition trimmed (s : jsstring) : Prop :=
  (forall c r, s = c :: r -> isSpace c = false)
  /\ (forall c r, s = r ++ [c] -> isSpace c = false).

(** The record [r] with another block as its lines. *)
Definition withLines (lines : list jsstring) (r : UnifiedMrzResult)
  : UnifiedMrzResult :=
  {| document_type := document_type r;
     document_number := document_number r;
     series := series r;
     nationality := nationality r;
     birth_date := birth_date r;
     sex := sex r;
     expiry_date := expiry_date r;
     personal_number := personal_number r;
     names := names r;
     verification_status := verification_status r;
     errors := errors r;
     raw_lines := lines;
     cleaned_lines := lines |}.

(** A first line whose first five columns are not those of a passport. *)
Definition visaLine1 : jsstring :=
  lit "V9XXXSURNAME<<NAME<<<<<<<<<<<<<<<<<<<<<<<<<<".


(** ** Text and tails *)

(** Every character of [s] has a code below 128: the text on which the
    model of [toUpperCase] is the JavaScript function. *)
Definition sevenBit (s : jsstring) : Prop :=
  forallb (fun c => code c <? 128) s = true.

(** [y] ends in three or more characters of the class [LCK<], one of which
    is an L, a C or a K: rule 3 has something to repair in [y]. *)
Definition pendingTail (y : jsstring) : Prop :=
  exists pre tail,
    y = pre ++ tail
    /\ 3 <= length tail
    /\ (forall c, In c tail -> isLCKLt c = true)
    /\ (exists c, In c tail /\ isLCK c = true).

(** A clean first line cut short by the OCR. *)
Definition cutLine1 : jsstring := lit "P<KGZSURNAME<<NAME<<<<<<<<<<<<<<<<<".

(** * Properties *)

(** ** Characters *)

Ltac all_chars c :=
  destruct c as [[] [] [] [] [] [] [] []]; vm_compute; try reflexivity.

Lemma isLt_true (c : ascii) : isLt c = true <-> c = "<".
Proof. unfold isLt. apply Ascii.eqb_eq. Qed.

Lemma isLt_false (c : ascii) : isLt c = false <-> c <> "<".
Proof. unfold isLt. apply Ascii.eqb_neq. Qed.

Lemma isCL_isUpper (c : ascii) : isCL c = true -> isUpper c = true.
Proof. all_chars c; discriminate. Qed.

Lemma isLCK_isUpper (c : ascii) : isLCK c = true -> isUpper c = true.
Proof. all_chars c; discriminate. Qed.

Lemma isSLCK_isUpper (c : ascii) : isSLCK c = true -> isUpper c = true.
Proof. all_chars c; discriminate. Qed.

Lemma isUpper_not_lt (c : ascii) : isUpper c = true -> isLt c = false.
Proof. all_chars c; discriminate. Qed.

Lemma parseInt_one_char (c : ascii) :
  parseInt [c] Radix10
  = if isDigit c then Some (Z.of_nat (code c) - 48)%Z else None.
Proof. all_chars c. Qed.

(** ** Check digit *)

Lemma getCharValue_icaoValue (c : ascii) : getCharValue c = icaoValue c.
Proof. all_chars c. Qed.

Lemma weightedSum_cons (value : ascii -> Z) (from : nat) (c : ascii) (s : jsstring) :
  weightedSum value from (c :: s)
  = (value c * nth (from mod 3) [7; 3; 1] 0 + weightedSum value (S from) s)%Z.
Proof.
  unfold weightedSum, sumZ. cbn [length seq map fold_right].
  rewrite Nat.add_0_r. f_equal.
  rewrite <- seq_shift, map_map. f_equal.
  apply map_ext. intros i.
  replace (from + S i) with (S from + i) by lia. reflexivity.
Qed.

Lemma checkDigitLoop_sum (rest : jsstring) :
  forall i sum,
    checkDigitLoop rest i sum = (sum + weightedSum getCharValue i rest)%Z.
Proof.
  induction rest as [|c r IH]; intros i sum.
  - cbn. unfold weightedSum. cbn. lia.
  - cbn [checkDigitLoop]. rewrite IH, weightedSum_cons.
    unfold weights. lia.
Qed.

(** C1. For every string [s], [calculateCheckDigit s] is the sum over the
    positions [i] of [s] of [value (s[i]) * w[i mod 3]], taken modulo 10, with
    [w = [7,3,1]] and [value] the table of the rule: a decimal digit counts
    its numeric value, a letter A..Z counts 10..35 and the filler counts 0. *)
Theorem calculateCheckDigit_weighted_sum (s : jsstring) :
  calculateCheckDigit s = (weightedSum icaoValue 0 s mod 10)%Z.
Proof.
  unfold calculateCheckDigit. rewrite checkDigitLoop_sum. cbn [Z.add].
  f_equal. unfold weightedSum. f_equal. apply map_ext. intros i.
  now rewrite getCharValue_icaoValue.
Qed.

(** C8. A check character that is not a decimal digit always makes
    [verifyField] return an error string, whatever the field and whatever
    its computed digit (0 included); and the field passes, [null] returned,
    exactly when the check character is a decimal digit whose value is the
    computed 7-3-1 digit. *)
Theorem verifyField_check_character (fieldValue type : jsstring) (c : ascii) (line : Z) :
  (isDigit c = false ->
   exists msg, verifyField fieldValue [c] type line = Some msg)
  /\ (verifyField fieldValue [c] type line = None
      <-> isDigit c = true
          /\ calculateCheckDigit fieldValue = (Z.of_nat (code c) - 48)%Z).
Proof.
  unfold verifyField. rewrite parseInt_one_char.
  destruct (isDigit c) eqn:D.
  - split; [discriminate|].
    destruct (Z.eqb_spec (calculateCheckDigit fieldValue) (Z.of_nat (code c) - 48)) as [E|E];
      cbn [negb]; split.
    + intros _. now split.
    + reflexivity.
    + discriminate.
    + intros [_ H]. contradiction.
  - split.
    + intros _. eexists. reflexivity.
    + split; [discriminate|]. intros [H _]. discriminate.
Qed.

Lemma verifyField_check_character_witness :
  (exists msg, verifyField (lit "A1234567<") ["<"] (lit "Document Number") 2 = Some msg)
  /\ (verifyField (lit "A1234567<") ["6"] (lit "Document Number") 2 = None).
Proof.
  split.
  - apply (proj1 (verifyField_check_character (lit "A1234567<") (lit "Document Number") "<" 2)).
    reflexivity.
  - apply (proj2 (verifyField_check_character (lit "A1234567<") (lit "Document Number") "6" 2)).
    split; reflexivity.
Defined.

(** C7. At the input "050101" [formatYMD] renders the year without its
    leading zero: the two-digit year goes through [parseInt] and is pasted
    behind "20" as the number 5.  A year above 50 is rendered as expected.
    The decoder shows the short year on a VALID passport whose holder was
    born in 2005. *)
Theorem formatYMD_050101 :
  formatYMD (lit "050101") = lit "205-01-01"
  /\ formatYMD (lit "050101") <> lit "2005-01-01"
  /\ formatYMD (lit "990101") = lit "1999-01-01"
  /\ (exists r, parseTD3 [passportLine1; bornIn2005Line2] = Some r
                /\ verification_status r = VALID
                /\ birth_date r = lit "205-01-01").
Proof.
  split; [reflexivity|]. split; [vm_compute; discriminate|].
  split; [reflexivity|].
  eexists. split; [reflexivity|]. split; reflexivity.
Qed.

(** ** Decoder verdict *)

Lemma statusOf_valid (errs : list jsstring) : statusOf errs = VALID <-> errs = [].
Proof. destruct errs; cbn; split; congruence. Qed.

(** C2. The record returned by [parseTD3] on two 44-character lines, and
    the one returned by [parseTD1] on three 30-character lines, has
    [verification_status] VALID if and only if its error list is empty (and
    both decoders do return a record there). *)
Theorem verification_status_valid_iff_no_errors (l1 l2 m1 m2 m3 : jsstring) :
  length l1 = 44 -> length l2 = 44 ->
  length m1 = 30 -> length m2 = 30 -> length m3 = 30 ->
  (exists r, parseTD3 [l1; l2] = Some r
             /\ (verification_status r = VALID <-> errors r = []))
  /\ (exists r, parseTD1 [m1; m2; m3] = Some r
                /\ (verification_status r = VALID <-> errors r = [])).
Proof.
  intros _ _ _ _ _. split.
  - eexists. split; [reflexivity|].
    cbn [verification_status errors]. apply statusOf_valid.
  - eexists. split; [reflexivity|].
    cbn [verification_status errors]. apply statusOf_valid.
Qed.

Lemma verification_status_valid_iff_no_errors_witness :
  (exists r, parseTD3 [passportLine1; passportLine2] = Some r
             /\ (verification_status r = VALID <-> errors r = []))
  /\ (exists r, parseTD1 [cardLine1; cardLine2; cardLine3] = Some r
                /\ (verification_status r = VALID <-> errors r = [])).
Proof.
  apply (verification_status_valid_iff_no_errors
           passportLine1 passportLine2 cardLine1 cardLine2 cardLine3);
    reflexivity.
Defined.

(** ** Resolver *)

Lemma parseTD3_document_type (lines : list jsstring) (r : UnifiedMrzResult) :
  parseTD3 lines = Some r -> document_type r = PASSPORT.
Proof.
  destruct lines as [|l1 [|l2 rest]]; try discriminate.
  unfold parseTD3. intros H. injection H as <-. reflexivity.
Qed.

Lemma parseTD1_document_type (lines : list jsstring) (r : UnifiedMrzResult) :
  parseTD1 lines = Some r -> document_type r = ID_CARD.
Proof.
  destruct lines as [|l1 [|l2 [|l3 rest]]]; try discriminate.
  unfold parseTD1. intros H. injection H as <-. reflexivity.
Qed.

Lemma tryParseCustom_two (c1 c2 : jsstring) (r : UnifiedMrzResult) :
  tryParseCustom [c1; c2] = Some r -> document_type r = PASSPORT.
Proof.
  unfold tryParseCustom. cbn [length Nat.eqb andb nth].
  destruct (_ && _); [apply parseTD3_document_type | discriminate].
Qed.

Lemma tryParseCustom_three (c1 c2 c3 : jsstring) (r : UnifiedMrzResult) :
  tryParseCustom [c1; c2; c3] = Some r -> document_type r = ID_CARD.
Proof.
  unfold tryParseCustom. cbn [length Nat.eqb andb nth].
  destruct (_ && _); [apply parseTD1_document_type | discriminate].
Qed.

Lemma td3Inner_passport (c1 : jsstring) (l2Candidates : list jsstring) :
  forall result, passportOrNull result ->
                 passportOrNull (td3Inner c1 l2Candidates result).
Proof.
  induction l2Candidates as [|c2 rest IH]; intros result P; cbn [td3Inner].
  - exact P.
  - destruct (isValid (tryParseCustom [c1; c2])).
    + intros r. apply tryParseCustom_two.
    + apply IH. destruct (tryParseCustom [c1; c2]) eqn:E; [|exact P].
      intros r [= <-]. now apply tryParseCustom_two in E.
Qed.

Lemma td3Outer_passport (l1Candidates l2Candidates : list jsstring) :
  forall result, passportOrNull result ->
                 passportOrNull (td3Outer l1Candidates l2Candidates result).
Proof.
  induction l1Candidates as [|c1 rest IH]; intros result P; cbn [td3Outer].
  - exact P.
  - pose proof (td3Inner_passport c1 l2Candidates result P) as P'.
    destruct (isValid _); [exact P' | now apply IH].
Qed.

Lemma tryTD3_passport (mrzLines : list jsstring) :
  passportOrNull (tryTD3 mrzLines None).
Proof.
  unfold tryTD3. destruct (_ && _).
  - apply td3Outer_passport. intros r. discriminate.
  - intros r. discriminate.
Qed.

Lemma isValid_true (res : option UnifiedMrzResult) :
  isValid res = true <-> exists r, res = Some r /\ verification_status r = VALID.
Proof.
  destruct res as [r|]; cbn.
  - destruct (verification_status r) eqn:E; split.
    + intros _. now exists r.
    + reflexivity.
    + discriminate.
    + intros (r' & [= <-] & H). congruence.
  - split; [discriminate | intros (r & H & _); discriminate].
Qed.

Lemma td1Inner_kept (r0 : UnifiedMrzResult) (c1 c2 : jsstring) (l3C : list jsstring) :
  keptOrValidCard r0 (td1Inner c1 c2 l3C (Some r0)).
Proof.
  induction l3C as [|c3 rest IH]; cbn [td1Inner].
  - now left.
  - destruct (isValid (tryParseCustom [c1; c2; c3])) eqn:V.
    + right. apply isValid_true in V. destruct V as (r & E & V).
      exists r. repeat split; trivial. now apply tryParseCustom_three in E.
    + destruct (tryParseCustom [c1; c2; c3]); exact IH.
Qed.

Lemma td1Middle_kept (r0 : UnifiedMrzResult) (c1 : jsstring) (l2C l3C : list jsstring) :
  keptOrValidCard r0 (td1Middle c1 l2C l3C (Some r0)).
Proof.
  induction l2C as [|c2 rest IH]; cbn [td1Middle].
  - now left.
  - destruct (td1Inner_kept r0 c1 c2 l3C) as [-> | (r & -> & D & V)].
    + destruct (isValid (Some r0)); [now left | exact IH].
    + cbn [isValid]. rewrite V. right. now exists r.
Qed.

Lemma td1Outer_kept (r0 : UnifiedMrzResult) (l1C l2C l3C : list jsstring) :
  keptOrValidCard r0 (td1Outer l1C l2C l3C (Some r0)).
Proof.
  induction l1C as [|c1 rest IH]; cbn [td1Outer].
  - now left.
  - destruct (td1Middle_kept r0 c1 l2C l3C) as [-> | (r & -> & D & V)].
    + destruct (isValid (Some r0)); [now left | exact IH].
    + cbn [isValid]. rewrite V. right. now exists r.
Qed.

Lemma tryTD1_kept (mrzLines : list jsstring) (r0 : UnifiedMrzResult) :
  keptOrValidCard r0 (tryTD1 mrzLines (Some r0)).
Proof.
  unfold tryTD1. destruct (_ && _); [apply td1Outer_kept | now left].
Qed.

Lemma isValid_some (res : option UnifiedMrzResult) :
  isValid res = true -> res <> None.
Proof. destruct res; [discriminate | cbn; discriminate]. Qed.

Lemma td3Inner_keeps (c1 : jsstring) (l2Candidates : list jsstring) :
  forall result, result <> None -> td3Inner c1 l2Candidates result <> None.
Proof.
  induction l2Candidates as [|c2 rest IH]; intros result N; cbn [td3Inner];
    [exact N|].
  destruct (isValid (tryParseCustom [c1; c2])) eqn:V.
  - now apply isValid_some.
  - apply IH. destruct (tryParseCustom [c1; c2]); [discriminate | exact N].
Qed.

Lemma td3Inner_decodes (c1 c2 : jsstring) (l2Candidates : list jsstring) :
  In c2 l2Candidates -> tryParseCustom [c1; c2] <> None ->
  forall result, td3Inner c1 l2Candidates result <> None.
Proof.
  intros I D. induction l2Candidates as [|x rest IH]; [contradiction|].
  intros result. cbn [td3Inner].
  destruct (isValid (tryParseCustom [c1; x])) eqn:V; [now apply isValid_some|].
  destruct I as [-> | I].
  - apply td3Inner_keeps. destruct (tryParseCustom [c1; c2]); [discriminate | contradiction].
  - now apply IH.
Qed.

Lemma td3Outer_keeps (l1Candidates l2Candidates : list jsstring) :
  forall result, result <> None ->
                 td3Outer l1Candidates l2Candidates result <> None.
Proof.
  induction l1Candidates as [|c1 rest IH]; intros result N; cbn [td3Outer];
    [exact N|].
  pose proof (td3Inner_keeps c1 l2Candidates result N) as K.
  destruct (isValid _); [exact K | now apply IH].
Qed.

Lemma td3Outer_decodes (c1 c2 : jsstring) (l1Candidates l2Candidates : list jsstring) :
  In c1 l1Candidates -> In c2 l2Candidates -> tryParseCustom [c1; c2] <> None ->
  forall result, td3Outer l1Candidates l2Candidates result <> None.
Proof.
  intros I1 I2 D. induction l1Candidates as [|x rest IH]; [contradiction|].
  intros result. cbn [td3Outer].
  destruct (isValid (td3Inner x l2Candidates result)) eqn:V;
    [now apply isValid_some|].
  destruct I1 as [-> | I1].
  - apply td3Outer_keeps. now apply (td3Inner_decodes c1 c2).
  - now apply IH.
Qed.

(** C10. When some pair of TD-3 windows decodes, VALID or not, the TD-3
    attempt leaves a record [r3], and the TD-1 attempt that follows ends
    with that same record or with a VALID identity-card record: an INVALID
    TD-1 decode never takes the place of the TD-3 record, and the final
    result is never an INVALID identity-card record. *)
Theorem td1_replaces_td3_only_by_valid
  (mrzLines : list jsstring) (c1 c2 : jsstring) (r0 : UnifiedMrzResult) :
  2 <= length mrzLines ->
  In c1 (getCandidates (nth 0 (sliceLast 2 mrzLines) []) 44) ->
  In c2 (getCandidates (nth 1 (sliceLast 2 mrzLines) []) 44) ->
  tryParseCustom [c1; c2] = Some r0 ->
  exists r3 r,
    tryTD3 mrzLines None = Some r3
    /\ resolveLines mrzLines = Some r
    /\ (r = r3 \/ (document_type r = ID_CARD /\ verification_status r = VALID))
    /\ ~ (document_type r = ID_CARD /\ verification_status r = INVALID).
Proof.
  intros L I1 I2 D.
  destruct (tryTD3 mrzLines None) as [r3|] eqn:H.
  - exists r3. unfold resolveLines. rewrite H.
    pose proof (tryTD3_passport mrzLines r3 H) as P.
    destruct (tryTD1_kept mrzLines r3) as [-> | (r & -> & T & V)].
    + exists r3. repeat split; [now left|]. intros [T _]. congruence.
    + exists r. repeat split; [now right|]. intros [_ N]. congruence.
  - exfalso. unfold tryTD3 in H. apply Nat.leb_le in L. rewrite L in H.
    cbn [andb] in H. revert H.
    apply (td3Outer_decodes c1 c2); trivial. congruence.
Qed.

Lemma td1_replaces_td3_only_by_valid_witness :
  exists r3 r,
    tryTD3 [cardLine1; passportLine1; damagedLine2] None = Some r3
    /\ resolveLines [cardLine1; passportLine1; damagedLine2] = Some r
    /\ (r = r3 \/ (document_type r = ID_CARD /\ verification_status r = VALID))
    /\ ~ (document_type r = ID_CARD /\ verification_status r = INVALID).
Proof.
  eapply (td1_replaces_td3_only_by_valid
            [cardLine1; passportLine1; damagedLine2] passportLine1 damagedLine2).
  - cbn. lia.
  - left. reflexivity.
  - left. reflexivity.
  - vm_compute. reflexivity.
Defined.

(** C3. On the pair [passportLine1], [overlongLine2] the second line has
    the two windows at offsets 0 and 1; both pairs decode, both are INVALID,
    and the TD-3 attempt ends with the decode of the last pair (offset 1),
    not with the decode of the first one: in the TD-3 loop every later
    decode overwrites the fallback.  The same record comes out of the whole
    pipeline on the text made of the two lines. *)
Theorem td3_fallback_is_last_decoded_pair :
  let first := substring 0 44 overlongLine2 in
  let last := substring 1 45 overlongLine2 in
  getCandidates passportLine1 44 = [passportLine1]
  /\ getCandidates overlongLine2 44 = [first; last]
  /\ (exists r, tryParseCustom [passportLine1; first] = Some r
                /\ verification_status r = INVALID
                /\ document_number r = lit "A1234567")
  /\ (exists r, tryParseCustom [passportLine1; last] = Some r
                /\ verification_status r = INVALID
                /\ document_number r = lit "12345678")
  /\ tryTD3 [passportLine1; overlongLine2] None
     = tryParseCustom [passportLine1; last]
  /\ resolveLines [passportLine1; overlongLine2]
     = tryParseCustom [passportLine1; last]
  /\ resolveLines [passportLine1; overlongLine2]
     <> tryParseCustom [passportLine1; first]
  /\ (exists r, processText (passportLine1 ++ ["010"] ++ overlongLine2) = Parsed r
                /\ tryParseCustom [passportLine1; last] = Some r).
Proof.
  cbv zeta. repeat split.
  - eexists. split; [vm_compute; reflexivity|]. split; reflexivity.
  - eexists. split; [vm_compute; reflexivity|]. split; reflexivity.
  - vm_compute. discriminate.
  - eexists. split; vm_compute; reflexivity.
Qed.

(** ** Line extractor *)

Lemma count_lt_filter (l : jsstring) :
  count_occ ascii_dec l "<" = length (filter isLt l).
Proof.
  induction l as [|c r IH]; [reflexivity|].
  cbn [count_occ filter]. destruct (ascii_dec c "<") as [->|N].
  - cbn. now rewrite IH.
  - apply isLt_false in N. now rewrite N.
Qed.

Lemma keepsLineb_spec (l : jsstring) : keepsLineb l = true <-> keepsLine l.
Proof.
  unfold keepsLineb, keepsLine.
  rewrite !andb_true_iff, !orb_true_iff, existsb_exists.
  rewrite !Nat.leb_le, !Nat.eqb_eq. tauto.
Qed.

Lemma looksLikeMrz_keepsLineb (line : jsstring) :
  looksLikeMrz line = keepsLineb (stripSpaces line).
Proof.
  unfold looksLikeMrz, keepsLineb. cbv zeta. now rewrite count_lt_filter.
Qed.

Lemma filter_map_comm {A B : Type} (f : A -> B) (p : B -> bool) (l : list A) :
  filter p (map f l) = map f (filter (fun a => p (f a)) l).
Proof.
  induction l as [|a r IH]; [reflexivity|].
  cbn [map filter]. destruct (p (f a)); cbn [map]; now rewrite IH.
Qed.

(** C4. The extractor splits the text at line feeds, trims every line and
    strips its white space; of the resulting lines it keeps, in their
    original order and once each, exactly those that satisfy [keepsLine]:
    (a) some character of A-Z, 0-9, '<', (b) a length from 20 to 100, and
    (c) two fillers or more, or a length of exactly 30, 36 or 44.  The kept
    lines are handed on in upper case. *)
Theorem extractMrzFromText_keeps (text : jsstring) :
  exists keep : jsstring -> bool,
    (forall l, keep l = true <-> keepsLine l)
    /\ extractMrzFromText text
       = map toUpperCase
           (filter keep
              (map (fun raw => stripSpaces (trim raw)) (split ["010"] text))).
Proof.
  exists keepsLineb. split; [exact keepsLineb_spec|].
  unfold extractMrzFromText. cbv zeta.
  rewrite !filter_map_comm, !map_map. f_equal.
  apply filter_ext. intros raw. apply looksLikeMrz_keepsLineb.
Qed.

(** ** Name splitting *)

Lemma splitGo_cut (s : jsstring) :
  forall cur,
    splitGo (lit "<<") 0 cur s
    = match cutAtSep s with
      | (a, None) => [rev cur ++ a]
      | (a, Some r) => (rev cur ++ a) :: splitGo (lit "<<") 0 [] r
      end.
Proof.
  induction s as [|c r IH]; intros cur.
  - cbn. now rewrite app_nil_r.
  - cbn [splitGo cutAtSep]. destruct (startsWith (lit "<<") (c :: r)) eqn:E.
    + rewrite app_nil_r. f_equal.
      destruct r as [|d r']; [cbn in E; now rewrite andb_false_r in E|].
      reflexivity.
    + rewrite IH. destruct (cutAtSep r) as [a [b|]]; cbn [rev];
        now rewrite <- app_assoc.
Qed.

Lemma split_cut (s : jsstring) :
  split (lit "<<") s
  = match cutAtSep s with
    | (a, None) => [a]
    | (a, Some r) => a :: split (lit "<<") r
    end.
Proof. unfold split. rewrite splitGo_cut. reflexivity. Qed.

Lemma names_of_split (zone : jsstring) :
  {| surname := surnameOf (split (lit "<<") zone);
     given_names := givenNamesOf (split (lit "<<") zone) |}
  = namesOfZone zone.
Proof.
  unfold namesOfZone, surnameOf, givenNamesOf, beforeSep, afterSep.
  rewrite (split_cut zone).
  destruct (cutAtSep zone) as [a [r|]]; cbn [fst snd nth length Nat.ltb Nat.leb].
  - rewrite (split_cut r).
    destruct (cutAtSep r) as [a' [r'|]]; reflexivity.
  - reflexivity.
Qed.

(** C9 (as amended). In both decoders the surname is the text of the name
    zone before its first '<<' and the given-names field is the text between
    the first '<<' and the next '<<' behind it (up to the end of the zone
    when there is no further one, empty when the zone has no '<<' at all),
    fillers rendered as blanks and the ends trimmed.  The zone is columns 5
    to 43 of line 1 for TD3 and line 3 without its trailing fillers for
    TD1. *)
Theorem names_split_on_separators (l1 l2 m1 m2 m3 : jsstring) :
  (exists r, parseTD3 [l1; l2] = Some r
             /\ names r = namesOfZone (substring 5 44 l1))
  /\ (exists r, parseTD1 [m1; m2; m3] = Some r
                /\ names r = namesOfZone (dropTrailingLt m3)).
Proof.
  split; (eexists; split; [reflexivity|]); cbn [names]; apply names_of_split.
Qed.

(** C9 (as stated) fails: the text behind the first separator holds a
    further '<<', and the given-names field stops there instead of taking
    the entire text. *)
Lemma given_names_stop_at_second_separator :
  exists r rest,
    parseTD3 [twoSeparatorsLine1; passportLine2] = Some r
    /\ afterSep (substring 5 44 twoSeparatorsLine1) = Some rest
    /\ trim (ltToSpace rest) = lit "GIVEN  OTHER"
    /\ given_names (names r) = lit "GIVEN"
    /\ given_names (names r) <> trim (ltToSpace rest).
Proof.
  eexists. eexists. split; [reflexivity|]. split; [reflexivity|].
  split; [reflexivity|]. split; [reflexivity|]. vm_compute. discriminate.
Qed.

(** ** Normalizer: rule 2 position by position *)

Lemma at_nil (i : nat) : [] @ i = " ".
Proof. destruct i; reflexivity. Qed.

Lemma at_overflow (s : jsstring) (i : nat) : length s <= i -> s @ i = " ".
Proof. apply nth_overflow. Qed.

Lemma at_ext (s t : jsstring) :
  length s = length t -> (forall i, s @ i = t @ i) -> s = t.
Proof. intros L H. apply (nth_ext s t " " " " L). intros i _. apply H. Qed.

Lemma scanPos_short (s : jsstring) (i : nat) :
  length s <= 3 -> scanPos s i = false.
Proof.
  intros L. destruct i as [|[|k]]; try reflexivity.
  unfold scanPos, sepCond.
  rewrite (at_overflow s (S (S (S k)))) by lia.
  now rewrite andb_false_r.
Qed.

Lemma sepAt_cons (a b : ascii) (r2 : jsstring) :
  sepAt (a :: b :: r2) = isLt a && isCL b && isUpper (r2 @ 0).
Proof.
  destruct r2 as [|x r3]; cbn; [now rewrite andb_false_r | reflexivity].
Qed.

Lemma fixSepScan_cons3 (c a b : ascii) (r2 : jsstring) :
  fixSepScan (c :: a :: b :: r2)
  = if negb (isLt c) && sepAt (a :: b :: r2)
    then c :: "<" :: "<" :: fixSepScan r2
    else c :: fixSepScan (a :: b :: r2).
Proof. reflexivity. Qed.

Lemma fixSepScan_spec (n : nat) :
  forall s, length s <= n ->
    length (fixSepScan s) = length s
    /\ forall i, fixSepScan s @ i = if scanPos s i then "<" else s @ i.
Proof.
  induction n as [|n IH]; intros s L.
  - destruct s; [|cbn in L; lia]. split; [reflexivity|].
    intros i. now rewrite scanPos_short by (cbn; lia).
  - destruct s as [|c r]; [split; [reflexivity|]; intros i;
                           now rewrite scanPos_short by (cbn; lia)|].
    cbn [length] in L.
    destruct r as [|a [|b r2]].
    + split; [reflexivity|]. intros i. now rewrite scanPos_short by (cbn; lia).
    + split; [reflexivity|]. intros i. now rewrite scanPos_short by (cbn; lia).
    + rewrite fixSepScan_cons3, sepAt_cons.
      destruct (negb (isLt c) && (isLt a && isCL b && isUpper (r2 @ 0))) eqn:M.
      * apply andb_true_iff in M. destruct M as [Mc M].
        apply andb_true_iff in M. destruct M as [M Mx].
        apply andb_true_iff in M. destruct M as [Ma Mb].
        destruct (IH r2) as [Len Nth]; [cbn [length] in L; lia|].
        split; [cbn [length]; now rewrite Len|].
        intros [|[|[|j]]].
        -- reflexivity.
        -- cbn. apply isLt_true in Ma. now subst a.
        -- unfold scanPos, sepCond, at_. cbn [nth].
           fold (r2 @ 0). now rewrite Mc, Ma, Mb, Mx.
        -- change ((c :: "<" :: "<" :: fixSepScan r2) @ S (S (S j)))
             with (fixSepScan r2 @ j).
           change ((c :: a :: b :: r2) @ S (S (S j))) with (r2 @ j).
           rewrite Nth. destruct j as [|[|k]].
           ++ unfold scanPos, sepCond, at_. cbn [nth]. now rewrite Ma.
           ++ unfold scanPos, sepCond, at_. cbn [nth]. fold (r2 @ 0).
              rewrite (isUpper_not_lt _ Mx). now rewrite andb_false_r.
           ++ reflexivity.
      * destruct (IH (a :: b :: r2)) as [Len Nth]; [cbn [length] in *; lia|].
        split; [cbn [length] in *; now rewrite Len|].
        intros [|j]; [reflexivity|].
        change ((c :: fixSepScan (a :: b :: r2)) @ S j)
          with (fixSepScan (a :: b :: r2) @ j).
        change ((c :: a :: b :: r2) @ S j) with ((a :: b :: r2) @ j).
        rewrite Nth. destruct j as [|[|k]].
        -- reflexivity.
        -- unfold scanPos at 2. unfold sepCond, at_. cbn [nth]. fold (r2 @ 0).
           rewrite <- !andb_assoc in *. now rewrite M.
        -- reflexivity.
Qed.

Lemma sepPos_short (s : jsstring) (i : nat) :
  length s <= 2 -> sepPos s i = false.
Proof.
  intros L. destruct i as [|[|k]]; try reflexivity; unfold sepPos, sepCond.
  - rewrite (at_overflow s 2) by lia. now rewrite andb_false_r.
  - rewrite (at_overflow s (S (S (S k)))) by lia. now rewrite andb_false_r.
Qed.

Lemma sepPos_scanPos (s : jsstring) (i : nat) :
  isLt (s @ 0) && isCL (s @ 1) && isUpper (s @ 2) = false ->
  sepPos s i = scanPos s i.
Proof. intros H. destruct i as [|[|k]]; trivial. Qed.

Lemma fixSeparators_at (s : jsstring) :
  length (fixSeparators s) = length s
  /\ forall i, fixSeparators s @ i = if sepPos s i then "<" else s @ i.
Proof.
  destruct s as [|a [|b r2]].
  - destruct (fixSepScan_spec 0 []) as [Len Nth]; [cbn; lia|].
    split; [exact Len|]. intros i. rewrite sepPos_short by (cbn; lia).
    cbn [fixSeparators]. rewrite Nth. now rewrite scanPos_short by (cbn; lia).
  - destruct (fixSepScan_spec 1 [a]) as [Len Nth]; [cbn; lia|].
    split; [exact Len|]. intros i. rewrite sepPos_short by (cbn; lia).
    cbn [fixSeparators]. rewrite Nth. now rewrite scanPos_short by (cbn; lia).
  - unfold fixSeparators. rewrite sepAt_cons.
    destruct (isLt a && isCL b && isUpper (r2 @ 0)) eqn:M.
    + apply andb_true_iff in M. destruct M as [M Mx].
      apply andb_true_iff in M. destruct M as [Ma Mb].
      destruct (fixSepScan_spec (length r2) r2) as [Len Nth]; [lia|].
      split; [cbn [length]; now rewrite Len|].
      intros [|[|j]].
      * cbn. apply isLt_true in Ma. now subst a.
      * unfold sepPos, at_. cbn [nth]. fold (r2 @ 0). now rewrite Ma, Mb, Mx.
      * change (("<" :: "<" :: fixSepScan r2) @ S (S j)) with (fixSepScan r2 @ j).
        change ((a :: b :: r2) @ S (S j)) with (r2 @ j).
        rewrite Nth. destruct j as [|[|k]].
        -- unfold sepPos, sepCond, at_. cbn [nth]. now rewrite Ma.
        -- unfold sepPos, sepCond, at_. cbn [nth]. fold (r2 @ 0).
           rewrite (isUpper_not_lt _ Mx). now rewrite andb_false_r.
        -- reflexivity.
    + destruct (fixSepScan_spec (length (a :: b :: r2)) (a :: b :: r2))
        as [Len Nth]; [lia|].
      split; [exact Len|]. intros i. rewrite Nth.
      now rewrite (sepPos_scanPos (a :: b :: r2) i M).
Qed.

(** C5 (as amended). Rule 2 keeps the length of the line and rewrites
    exactly the positions marked by [sepPos]: every C or L that stands
    behind a filler and before a letter becomes a filler, provided that
    filler is the first character of the line or follows a character other
    than '<'; every other character is left as it is.  A '<C' or '<L' whose
    filler follows another filler is not rewritten. *)
Theorem fixSeparators_repairs (s : jsstring) :
  length (fixSeparators s) = length s
  /\ forall i, fixSeparators s @ i = if sepPos s i then "<" else s @ i.
Proof. exact (fixSeparators_at s). Qed.

(** C5 (as stated) fails: in "AB<<CD" the filler at index 3 is followed by
    C and then by the letter D, yet the pair is left alone because that
    filler follows another filler; the whole normalizer leaves the line
    unchanged as well. *)
Lemma separator_behind_filler_kept :
  let s := lit "AB<<CD" in
  isLt (s @ 3) = true /\ isCL (s @ 4) = true /\ isUpper (s @ 5) = true
  /\ fixSeparators s @ 4 = "C"
  /\ fixSeparators s = s
  /\ cleanMrzLine s = s
  /\ cleanMrzLine s <> lit "AB<<<D".
Proof. cbv zeta. repeat split. vm_compute. discriminate. Qed.

(** ** Normalizer: what the repair rules preserve *)

Lemma fills_refl (s : jsstring) : fills s s.
Proof. split; [reflexivity | now left]. Qed.

Lemma fills_trans (s t u : jsstring) : fills s t -> fills t u -> fills s u.
Proof.
  intros [L1 H1] [L2 H2]. split; [congruence|]. intros i.
  destruct (H2 i) as [E2 | [E2 U2]], (H1 i) as [E1 | [E1 U1]].
  - left. congruence.
  - right. split; [congruence | exact U1].
  - right. split; [exact E2 | congruence].
  - rewrite E1 in U2. discriminate.
Qed.

Lemma toUpperChar_not_lower (c : ascii) : isLower (toUpperChar c) = false.
Proof. all_chars c. Qed.

Lemma toUpperCase_noLower (s : jsstring) : noLower (toUpperCase s).
Proof.
  induction s as [|c r IH]; intros i.
  - now rewrite at_nil.
  - destruct i; [apply toUpperChar_not_lower | apply IH].
Qed.

Lemma noLower_toUpperCase (s : jsstring) : noLower s -> toUpperCase s = s.
Proof.
  induction s as [|c r IH]; intros H; [reflexivity|].
  cbn [toUpperCase map]. f_equal.
  - specialize (H 0). cbn in H. unfold toUpperChar. now rewrite H.
  - apply IH. intros i. apply (H (S i)).
Qed.

Lemma startMatches_at (p : ascii) (s : jsstring) :
  startMatches p s
  = Ascii.eqb (s @ 0) p && isSLCK (s @ 1) && isUpperOrLt (s @ 2)
    && isUpperOrLt (s @ 3) && isUpperOrLt (s @ 4).
Proof.
  destruct s as [|a [|b [|c [|d [|e r]]]]]; cbn;
    rewrite ?andb_false_r; reflexivity.
Qed.

Lemma isSLCK_not_lt (c : ascii) : isSLCK c = true -> isLt c = false.
Proof. intros H. apply isUpper_not_lt. now apply isSLCK_isUpper. Qed.

(** What carries over from a line [s] to a line [t] that differs from it by
    letters turned into fillers. *)
Section Fills.
Variables s t : jsstring.
Hypothesis F : fills s t.

Lemma fills_noLower : noLower s -> noLower t.
Proof.
  destruct F as [_ H]. intros N i.
  destruct (H i) as [-> | [-> _]]; [apply N | reflexivity].
Qed.

Lemma fills_upperOrLt (i : nat) :
  isUpperOrLt (t @ i) = true -> isUpperOrLt (s @ i) = true.
Proof.
  destruct F as [_ H]. intros U. destruct (H i) as [<- | [_ V]]; [exact U|].
  unfold isUpperOrLt. now rewrite V.
Qed.

Lemma fills_not_lt (i : nat) : isLt (t @ i) = false -> t @ i = s @ i.
Proof.
  destruct F as [_ H]. intros N. destruct (H i) as [E | [E _]]; [exact E|].
  rewrite E in N. discriminate.
Qed.

Lemma fills_lt (i : nat) : isLt (s @ i) = true -> isLt (t @ i) = true.
Proof.
  destruct F as [_ H]. intros N.
  destruct (H i) as [-> | [-> _]]; [exact N | reflexivity].
Qed.

Lemma fills_startMatches (p : ascii) :
  isLt p = false -> startMatches p t = true -> startMatches p s = true.
Proof.
  intros P. rewrite !startMatches_at, !andb_true_iff.
  intros [[[[H0 H1] H2] H3] H4].
  repeat split; try (now apply fills_upperOrLt).
  - rewrite <- (fills_not_lt 0); [exact H0|].
    apply Ascii.eqb_eq in H0. now rewrite H0.
  - rewrite <- (fills_not_lt 1); [exact H1|].
    now apply isSLCK_not_lt.
Qed.

Lemma fills_startClean : startClean s -> startClean t.
Proof.
  intros [SP SI]. split.
  - destruct (startMatches "P" t) eqn:E; [|reflexivity].
    apply (fills_startMatches "P") in E; trivial. congruence.
  - destruct (startMatches "I" t) eqn:E; [|reflexivity].
    apply (fills_startMatches "I") in E; trivial. congruence.
Qed.
End Fills.

(** *** Rule 1 *)

Lemma startMatches_shape (p : ascii) (s : jsstring) :
  startMatches p s = true ->
  exists b rest, s = p :: b :: rest /\ isSLCK b = true /\ 3 <= length rest.
Proof.
  destruct s as [|a [|b [|c [|d [|e r]]]]]; try discriminate.
  cbn [startMatches]. rewrite !andb_true_iff. intros [[[[H0 H1] _] _] _].
  apply Ascii.eqb_eq in H0. subst a. exists b, (c :: d :: e :: r).
  repeat split; trivial. cbn. lia.
Qed.

Lemma startMatches_second_lt (p a : ascii) (rest : jsstring) :
  startMatches p (a :: "<" :: rest) = false.
Proof.
  rewrite startMatches_at. cbn. now rewrite andb_false_r.
Qed.

Lemma fixStart_cases (s : jsstring) :
  (startClean s /\ fixStart s = s)
  \/ exists p b rest,
       s = p :: b :: rest /\ isSLCK b = true /\ fixStart s = p :: "<" :: rest.
Proof.
  unfold fixStart. destruct (startMatches "P" s) eqn:EP.
  - right. destruct (startMatches_shape _ _ EP) as (b & rest & -> & B & _).
    exists "P", b, rest. repeat split; trivial.
    cbn [lit list_ascii_of_string app substringFrom skipn].
    now rewrite startMatches_second_lt.
  - destruct (startMatches "I" s) eqn:EI.
    + right. destruct (startMatches_shape _ _ EI) as (b & rest & -> & B & _).
      exists "I", b, rest. repeat split; trivial.
    + left. repeat split; trivial.
Qed.

Lemma fixStart_fills (s : jsstring) : fills s (fixStart s).
Proof.
  destruct (fixStart_cases s) as [[_ ->] | (p & b & rest & -> & B & ->)].
  - apply fills_refl.
  - split; [reflexivity|]. intros [|[|i]].
    + now left.
    + right. split; [reflexivity|]. now apply isSLCK_isUpper.
    + now left.
Qed.

Lemma fixStart_startClean (s : jsstring) : startClean (fixStart s).
Proof.
  destruct (fixStart_cases s) as [[C ->] | (p & b & rest & -> & B & ->)].
  - exact C.
  - split; apply startMatches_second_lt.
Qed.

Lemma startClean_fixStart (s : jsstring) : startClean s -> fixStart s = s.
Proof. intros [SP SI]. unfold fixStart. now rewrite SP, SI. Qed.

(** *** Rule 2 *)

Lemma sepPos_isCL (s : jsstring) (i : nat) :
  sepPos s i = true -> isCL (s @ i) = true.
Proof.
  destruct i as [|[|k]]; [discriminate| |]; unfold sepPos, sepCond;
    rewrite !andb_true_iff; tauto.
Qed.

Lemma sepPos_prev_lt (s : jsstring) (k : nat) :
  sepPos s (S k) = true -> isLt (s @ k) = true.
Proof.
  destruct k as [|k]; unfold sepPos, sepCond; rewrite !andb_true_iff; tauto.
Qed.

Lemma fixSeparators_fills (s : jsstring) : fills s (fixSeparators s).
Proof.
  destruct (fixSeparators_at s) as [Len Nth]. split; [exact Len|].
  intros i. rewrite Nth. destruct (sepPos s i) eqn:E; [right | now left].
  split; [reflexivity|]. apply isCL_isUpper. now apply sepPos_isCL.
Qed.

Lemma fixSeparators_not_lt (s : jsstring) (i : nat) :
  isLt (fixSeparators s @ i) = false ->
  fixSeparators s @ i = s @ i /\ sepPos s i = false.
Proof.
  destruct (fixSeparators_at s) as [_ Nth]. rewrite Nth.
  destruct (sepPos s i); [discriminate | now split].
Qed.

Lemma fixSeparators_lt (s : jsstring) (i : nat) :
  isLt (fixSeparators s @ i) = true ->
  sepPos s i = true \/ isLt (s @ i) = true.
Proof.
  destruct (fixSeparators_at s) as [_ Nth]. rewrite Nth.
  destruct (sepPos s i); [now left | now right].
Qed.

Lemma isCL_not_lt (c : ascii) : isCL c = true -> isLt c = false.
Proof. intros H. apply isUpper_not_lt. now apply isCL_isUpper. Qed.

Lemma fixSeparators_sepClean (s : jsstring) : sepClean (fixSeparators s).
Proof.
  intros i. destruct (sepPos (fixSeparators s) i) eqn:E; [exfalso | reflexivity].
  pose proof (fixSeparators_fills s) as F.
  destruct i as [|[|k]]; [discriminate| |].
  - unfold sepPos in E. rewrite !andb_true_iff in E. destruct E as [[E0 E1] E2].
    destruct (fixSeparators_not_lt s 1 (isCL_not_lt _ E1)) as [X1 N1].
    destruct (fixSeparators_not_lt s 2 (isUpper_not_lt _ E2)) as [X2 _].
    rewrite X1 in E1. rewrite X2 in E2.
    destruct (fixSeparators_lt s 0 E0) as [P | L]; [discriminate|].
    unfold sepPos in N1. rewrite L, E1, E2 in N1. discriminate.
  - unfold sepPos, sepCond in E. rewrite !andb_true_iff in E.
    destruct E as [[[E0 E1] E2] E3]. apply negb_true_iff in E0.
    destruct (fixSeparators_not_lt s k E0) as [X0 _].
    destruct (fixSeparators_not_lt s (S (S k)) (isCL_not_lt _ E2)) as [X2 N2].
    destruct (fixSeparators_not_lt s (S (S (S k))) (isUpper_not_lt _ E3)) as [X3 _].
    rewrite X2 in E2. rewrite X3 in E3.
    destruct (fixSeparators_lt s (S k) E1) as [P | L].
    + apply sepPos_prev_lt in P. apply (fills_lt _ _ F k) in P. congruence.
    + unfold sepPos, sepCond in N2. rewrite <- X0, E0, L, E2, E3 in N2.
      discriminate.
Qed.

Lemma sepClean_fixSeparators (s : jsstring) : sepClean s -> fixSeparators s = s.
Proof.
  intros C. destruct (fixSeparators_at s) as [Len Nth].
  apply at_ext; [exact Len|]. intros i. now rewrite Nth, C.
Qed.

(** *** Rule 3 *)

Lemma toFiller_no_LCK (s : jsstring) :
  existsb isLCK s = false -> map toFiller s = s.
Proof.
  induction s as [|c r IH]; [reflexivity|].
  cbn [existsb map]. intros H. apply orb_false_iff in H. destruct H as [Hc Hr].
  unfold toFiller at 1. rewrite Hc. f_equal. now apply IH.
Qed.

Lemma matchTail_tailRepair (s : jsstring) :
  forall pre,
    match matchTail s (length pre) with
    | Some (index, tail) =>
        if existsb isLCK tail
        then substring 0 index (pre ++ s) ++ map toFiller tail
        else pre ++ s
    | None => pre ++ s
    end = pre ++ tailRepair s.
Proof.
  induction s as [|c r IH]; intros pre; [reflexivity|].
  cbn [matchTail tailRepair].
  destruct (forallb isLCKLt (c :: r) && (3 <=? length (c :: r))) eqn:C.
  - destruct (existsb isLCK (c :: r)) eqn:X.
    + unfold substring. cbn [skipn]. rewrite Nat.sub_0_r.
      rewrite firstn_app, firstn_all, Nat.sub_diag. cbn [firstn].
      now rewrite app_nil_r.
    + now rewrite toFiller_no_LCK.
  - specialize (IH (pre ++ [c])).
    rewrite length_app, Nat.add_1_r, <- app_assoc in IH. cbn [app] in IH.
    rewrite <- app_assoc in IH. exact IH.
Qed.

Lemma fixTail_tailRepair (s : jsstring) : fixTail s = tailRepair s.
Proof. exact (matchTail_tailRepair s []). Qed.

Lemma toFiller_cases (c : ascii) :
  toFiller c = c \/ (toFiller c = "<" /\ isUpper c = true).
Proof.
  unfold toFiller. destruct (isLCK c) eqn:E; [right | now left].
  split; [reflexivity | now apply isLCK_isUpper].
Qed.

Lemma toFiller_class (c : ascii) : isLCKLt (toFiller c) = isLCKLt c.
Proof. all_chars c. Qed.

Lemma toFiller_idem (c : ascii) : toFiller (toFiller c) = toFiller c.
Proof. all_chars c. Qed.

Lemma toFiller_not_upper (c : ascii) :
  isLCKLt c = true -> isUpper (toFiller c) = false.
Proof. all_chars c; discriminate. Qed.

Lemma tailRepair_length (s : jsstring) : length (tailRepair s) = length s.
Proof.
  induction s as [|c r IH]; [reflexivity|]. cbn [tailRepair].
  destruct (_ && _); [apply length_map | cbn [length]; now rewrite IH].
Qed.

Lemma map_toFiller_fills (s : jsstring) : fills s (map toFiller s).
Proof.
  split; [apply length_map|].
  induction s as [|c r IH]; intros i; [now left|].
  destruct i as [|i]; [apply toFiller_cases | apply IH].
Qed.

Lemma tailRepair_fills (s : jsstring) : fills s (tailRepair s).
Proof.
  induction s as [|c r IH]; [apply fills_refl|]. cbn [tailRepair].
  destruct (_ && _); [apply map_toFiller_fills|].
  destruct IH as [Len Nth]. split; [cbn [length]; now rewrite Len|].
  intros [|i]; [now left | apply Nth].
Qed.

Lemma tailRepair_class (s : jsstring) :
  forallb isLCKLt (tailRepair s) = forallb isLCKLt s.
Proof.
  induction s as [|c r IH]; [reflexivity|]. cbn [tailRepair].
  destruct (forallb isLCKLt (c :: r) && (3 <=? length (c :: r))) eqn:C.
  - clear C IH. generalize (c :: r). intros l.
    induction l as [|x l IH]; [reflexivity|].
    cbn [map forallb]. now rewrite toFiller_class, IH.
  - cbn [forallb]. now rewrite IH.
Qed.

Lemma tailRepair_idem (s : jsstring) : tailRepair (tailRepair s) = tailRepair s.
Proof.
  induction s as [|c r IH]; [reflexivity|]. cbn [tailRepair].
  destruct (forallb isLCKLt (c :: r) && (3 <=? length (c :: r))) eqn:C.
  - assert (T : tailRepair (c :: r) = map toFiller (c :: r))
      by (cbn [tailRepair]; now rewrite C).
    pose proof (tailRepair_class (c :: r)) as K. rewrite T in K.
    remember (map toFiller (c :: r)) as m eqn:M.
    assert (Lm : length m = length (c :: r)) by (subst m; apply length_map).
    destruct m as [|x m]; [discriminate|].
    cbn [tailRepair]. rewrite K, Lm, C. rewrite M, map_map.
    apply map_ext. intros a. apply toFiller_idem.
  - cbn [tailRepair].
    replace (forallb isLCKLt (c :: tailRepair r) && (3 <=? length (c :: tailRepair r)))
      with false.
    + now rewrite IH.
    + cbn [forallb length]. rewrite tailRepair_class, tailRepair_length.
      symmetry. exact C.
Qed.

Lemma map_toFiller_not_upper (s : jsstring) :
  forallb isLCKLt s = true -> forall i, isUpper (map toFiller s @ i) = false.
Proof.
  induction s as [|c r IH]; intros H i; [now rewrite at_nil|].
  cbn [forallb] in H. apply andb_true_iff in H. destruct H as [Hc Hr].
  destruct i as [|i]; [now apply toFiller_not_upper | now apply IH].
Qed.

(** The repaired line agrees with the line up to some index and holds no
    letter from there on. *)
Lemma tailRepair_split (s : jsstring) :
  exists k,
    (forall i, i < k -> tailRepair s @ i = s @ i)
    /\ (forall i, k <= i -> isUpper (tailRepair s @ i) = false).
Proof.
  induction s as [|c r IH].
  - exists 0. split; [lia|]. intros i _. now rewrite at_nil.
  - cbn [tailRepair].
    destruct (forallb isLCKLt (c :: r) && (3 <=? length (c :: r))) eqn:C.
    + exists 0. split; [lia|]. intros i _.
      apply andb_true_iff in C. now apply map_toFiller_not_upper.
    + destruct IH as (k & Same & NoUp). exists (S k). split.
      * intros [|i] L; [reflexivity|]. apply (Same i). lia.
      * intros [|i] L; [lia|]. apply (NoUp i). lia.
Qed.

Lemma tailRepair_sepClean (s : jsstring) : sepClean s -> sepClean (tailRepair s).
Proof.
  intros C i. destruct (sepPos (tailRepair s) i) eqn:E; [exfalso | reflexivity].
  destruct (tailRepair_split s) as (k & Same & NoUp).
  destruct i as [|[|j]]; [discriminate| |].
  - assert (L : 2 < k).
    { destruct (Nat.lt_ge_cases 2 k) as [L|L]; [exact L|].
      unfold sepPos in E. rewrite (NoUp 2 L), andb_false_r in E. discriminate. }
    specialize (C 1). unfold sepPos in *.
    rewrite !Same in E by lia. congruence.
  - assert (L : S (S (S j)) < k).
    { destruct (Nat.lt_ge_cases (S (S (S j))) k) as [L|L]; [exact L|].
      unfold sepPos, sepCond in E.
      rewrite (NoUp _ L), andb_false_r in E. discriminate. }
    specialize (C (S (S j))). unfold sepPos in *.
    rewrite !Same in E by lia. congruence.
Qed.

(** *** Rule 4 *)

Lemma padEnd_length (n : nat) (s : jsstring) :
  length (padEnd n s) = length s + (n - length s).
Proof. unfold padEnd. now rewrite length_app, repeat_length. Qed.

Lemma fixLength_cases (s : jsstring) :
  fixLength s = s \/ length s < length (fixLength s).
Proof.
  unfold fixLength.
  destruct (startsWith (lit "P<") s && (length s <? 44) && (30 <? length s)) eqn:P.
  - right. apply andb_true_iff in P. destruct P as [P _].
    apply andb_true_iff in P. destruct P as [_ P]. apply Nat.ltb_lt in P.
    destruct (_ && _); rewrite ?padEnd_length; lia.
  - destruct (startsWith (lit "I<") s && (length s <? 30) && (20 <? length s)) eqn:I.
    + right. apply andb_true_iff in I. destruct I as [I _].
      apply andb_true_iff in I. destruct I as [_ I]. apply Nat.ltb_lt in I.
      rewrite padEnd_length. lia.
    + now left.
Qed.

(** *** The four rules in a row *)

Lemma repaired_length (line : jsstring) : length (repaired line) = length line.
Proof.
  unfold repaired. rewrite fixTail_tailRepair, tailRepair_length.
  rewrite (proj1 (fixSeparators_at _)), (proj1 (fixStart_fills _)).
  apply length_map.
Qed.

(** Rules 1 to 3 leave a line on which none of them, nor the upper-casing,
    has anything left to do. *)
Lemma repaired_fixed (line : jsstring) :
  let y := repaired line in
  toUpperCase y = y /\ fixStart y = y /\ fixSeparators y = y /\ fixTail y = y.
Proof.
  cbv zeta. unfold repaired. rewrite !fixTail_tailRepair.
  set (u := toUpperCase line). set (v := fixStart u). set (w := fixSeparators v).
  assert (Fvw : fills v w) by apply fixSeparators_fills.
  assert (Fwy : fills w (tailRepair w)) by apply tailRepair_fills.
  assert (Fuv : fills u v) by apply fixStart_fills.
  repeat split.
  - apply noLower_toUpperCase.
    apply (fills_noLower w _ Fwy).
    apply (fills_noLower v _ Fvw).
    apply (fills_noLower u _ Fuv).
    apply toUpperCase_noLower.
  - apply startClean_fixStart.
    apply (fills_startClean w _ Fwy).
    apply (fills_startClean v _ Fvw).
    apply fixStart_startClean.
  - apply sepClean_fixSeparators, tailRepair_sepClean, fixSeparators_sepClean.
  - apply tailRepair_idem.
Qed.

(** C6 (as stated) fails: the first pass pads the 35-character line to 44
    columns behind its final K, which is too short a run for rule 3; on the
    second pass the K heads a run of ten characters of the class, and rule 3
    turns it into a filler. *)
Lemma cleanMrzLine_not_idempotent :
  cleanMrzLine shortLine1 = lit "P<KGZABCDEFGHIJABCDEFGHIJABCDEFGHIK<<<<<<<<<"
  /\ cleanMrzLine (cleanMrzLine shortLine1)
     = lit "P<KGZABCDEFGHIJABCDEFGHIJABCDEFGHI<<<<<<<<<<"
  /\ cleanMrzLine (cleanMrzLine shortLine1) <> cleanMrzLine shortLine1.
Proof. repeat split. vm_compute. discriminate. Qed.

(** * Further properties *)

(** ** Candidate windows *)

Lemma substring_length (i n : nat) (line : jsstring) :
  i + n <= length line -> length (substring i (i + n) line) = n.
Proof.
  intros L. unfold substring. rewrite length_firstn, length_skipn. lia.
Qed.

Lemma getCandidates_In (line : jsstring) (n : nat) (c : jsstring) :
  In c (getCandidates line n)
  <-> exists i, i + n <= length line /\ c = substring i (i + n) line.
Proof.
  unfold getCandidates. rewrite in_app_iff.
  destruct (Nat.eqb_spec (length line) n) as [E|E];
    destruct (Nat.ltb_spec n (length line)) as [G|G]; try lia.
  - split.
    + intros [[<- | []] | []]. exists 0. split; [lia|].
      unfold substring. cbn [skipn]. rewrite Nat.add_0_l, Nat.sub_0_r.
      symmetry. apply firstn_all2. lia.
    + intros (i & L & ->). left. left. assert (i = 0) by lia. subst i.
      unfold substring. cbn [skipn]. rewrite Nat.add_0_l, Nat.sub_0_r.
      symmetry. apply firstn_all2. lia.
  - split.
    + intros [[] | H]. apply in_map_iff in H. destruct H as (i & <- & I).
      apply in_seq in I. exists i. split; [lia | reflexivity].
    + intros (i & L & ->). right. apply in_map_iff. exists i.
      split; [reflexivity|]. apply in_seq. lia.
  - split; [intros [[] | []]|]. intros (i & L & _). lia.
Qed.

(** X1. The candidates of a line for a target width are exactly its
    contiguous windows of that width: [c] is a candidate if and only if it is
    [line.substring(i, i + targetLen)] for an offset [i] that leaves the
    window inside the line.  Every candidate has the target width, a line
    shorter than the target has none, and a line of [k] extra characters has
    [k + 1] of them, in the order of their offsets. *)
Theorem getCandidates_windows (line : jsstring) (targetLen : nat) :
  (forall c, In c (getCandidates line targetLen)
             <-> exists i, i + targetLen <= length line
                           /\ c = substring i (i + targetLen) line)
  /\ (forall c, In c (getCandidates line targetLen) -> length c = targetLen)
  /\ getCandidates line targetLen
     = if targetLen <=? length line
       then map (fun i => substring i (i + targetLen) line)
                (seq 0 (length line - targetLen + 1))
       else [].
Proof.
  split; [intros c; apply getCandidates_In|]. split.
  - intros c H. apply getCandidates_In in H. destruct H as (i & L & ->).
    now apply substring_length.
  - unfold getCandidates.
    destruct (Nat.eqb_spec (length line) targetLen) as [E|E];
      destruct (Nat.ltb_spec targetLen (length line)) as [G|G];
      destruct (Nat.leb_spec targetLen (length line)) as [K|K]; try lia;
      try reflexivity.
    replace (length line - targetLen + 1) with 1 by lia. cbn [seq map app].
    unfold substring. cbn [skipn]. rewrite Nat.add_0_l, Nat.sub_0_r.
    f_equal. symmetry. apply firstn_all2. lia.
Qed.

Lemma getCandidates_windows_witness :
  In (lit "BCD") (getCandidates (lit "ABCDE") 3)
  /\ length (lit "BCD") = 3
  /\ getCandidates (lit "ABCDE") 3 = [lit "ABC"; lit "BCD"; lit "CDE"]
  /\ getCandidates (lit "AB") 3 = [].
Proof.
  destruct (getCandidates_windows (lit "ABCDE") 3) as (W & L & E).
  assert (I : In (lit "BCD") (getCandidates (lit "ABCDE") 3)).
  { apply W. exists 1. split; [cbn; lia | reflexivity]. }
  split; [exact I|]. split; [exact (L _ I)|]. split; [exact E|].
  exact (proj2 (proj2 (getCandidates_windows (lit "AB") 3))).
Defined.

(** ** Decoding a block *)

Lemma tryParseCustom_pair (a b : jsstring) :
  length a = 44 -> length b = 44 -> tryParseCustom [a; b] = parseTD3 [a; b].
Proof.
  intros La Lb. unfold tryParseCustom. cbn [length nth Nat.eqb andb].
  now rewrite La, Lb.
Qed.

Lemma tryParseCustom_triple (a b c : jsstring) :
  length a = 30 -> length b = 30 -> length c = 30 ->
  tryParseCustom [a; b; c] = parseTD1 [a; b; c].
Proof.
  intros La Lb Lc. unfold tryParseCustom. cbn [length nth Nat.eqb andb].
  now rewrite La, Lb, Lc.
Qed.

Lemma parseTD3_raw_lines (lines : list jsstring) (r : UnifiedMrzResult) :
  parseTD3 lines = Some r -> raw_lines r = lines /\ cleaned_lines r = lines.
Proof.
  destruct lines as [|l1 [|l2 rest]]; try discriminate.
  unfold parseTD3. intros H. injection H as <-. now split.
Qed.

Lemma parseTD1_raw_lines (lines : list jsstring) (r : UnifiedMrzResult) :
  parseTD1 lines = Some r -> raw_lines r = lines /\ cleaned_lines r = lines.
Proof.
  destruct lines as [|l1 [|l2 [|l3 rest]]]; try discriminate.
  unfold parseTD1. intros H. injection H as <-. now split.
Qed.

Lemma tryParseCustom_some (lines : list jsstring) (r : UnifiedMrzResult) :
  tryParseCustom lines = Some r ->
  raw_lines r = lines
  /\ ((twoBy44 lines /\ document_type r = PASSPORT)
      \/ (threeBy30 lines /\ document_type r = ID_CARD)).
Proof.
  unfold tryParseCustom.
  destruct ((length lines =? 2) && (length (nth 0 lines []) =? 44)
            && (length (nth 1 lines []) =? 44)) eqn:T.
  - rewrite !andb_true_iff, !Nat.eqb_eq in T. destruct T as [[L La] Lb].
    destruct lines as [|a [|b [|c rest]]]; try discriminate.
    intros H. split; [apply (parseTD3_raw_lines _ _ H)|]. left. split.
    + now exists a, b.
    + now apply parseTD3_document_type in H.
  - destruct ((length lines =? 3) && (length (nth 0 lines []) =? 30)
              && (length (nth 1 lines []) =? 30)
              && (length (nth 2 lines []) =? 30)) eqn:U; [|discriminate].
    rewrite !andb_true_iff, !Nat.eqb_eq in U. destruct U as [[[L La] Lb] Lc].
    destruct lines as [|a [|b [|c [|d rest]]]]; try discriminate.
    intros H. split; [apply (parseTD1_raw_lines _ _ H)|]. right. split.
    + now exists a, b, c.
    + now apply parseTD1_document_type in H.
Qed.

(** X2. [tryParseCustom] decodes a block exactly when it has one of the two
    shapes: two lines of 44 characters give a PASSPORT record, three lines
    of 30 characters give an ID_CARD record, each carrying the block as its
    [raw_lines]; every other block gives [null].  On a block of the right
    shape the decoders never throw, whatever the characters are. *)
Theorem tryParseCustom_decodes_exactly_two_shapes (lines : list jsstring) :
  (twoBy44 lines ->
   exists r, tryParseCustom lines = Some r
             /\ document_type r = PASSPORT /\ raw_lines r = lines)
  /\ (threeBy30 lines ->
      exists r, tryParseCustom lines = Some r
                /\ document_type r = ID_CARD /\ raw_lines r = lines)
  /\ (~ twoBy44 lines -> ~ threeBy30 lines -> tryParseCustom lines = None).
Proof.
  split; [|split].
  - intros (a & b & -> & La & Lb). rewrite tryParseCustom_pair by assumption.
    eexists. split; [reflexivity|]. split; reflexivity.
  - intros (a & b & c & -> & La & Lb & Lc).
    rewrite tryParseCustom_triple by assumption.
    eexists. split; [reflexivity|]. split; reflexivity.
  - intros N2 N3. destruct (tryParseCustom lines) as [r|] eqn:E; [|reflexivity].
    apply tryParseCustom_some in E. destruct E as [_ [[T _] | [T _]]]; contradiction.
Qed.

Lemma tryParseCustom_decodes_exactly_two_shapes_witness :
  (exists r, tryParseCustom [passportLine1; passportLine2] = Some r
             /\ document_type r = PASSPORT
             /\ raw_lines r = [passportLine1; passportLine2])
  /\ (exists r, tryParseCustom [cardLine1; cardLine2; cardLine3] = Some r
                /\ document_type r = ID_CARD
                /\ raw_lines r = [cardLine1; cardLine2; cardLine3])
  /\ tryParseCustom [passportLine1; cardLine2] = None.
Proof.
  split; [|split].
  - apply (proj1 (tryParseCustom_decodes_exactly_two_shapes _)).
    exists passportLine1, passportLine2. repeat split.
  - apply (proj1 (proj2 (tryParseCustom_decodes_exactly_two_shapes _))).
    exists cardLine1, cardLine2, cardLine3. repeat split.
  - apply (proj2 (proj2 (tryParseCustom_decodes_exactly_two_shapes _))).
    + intros (a & b & E & La & Lb). injection E as <- <-. discriminate.
    + intros (a & b & c & E & _). discriminate.
Defined.

(** ** The resolver loops as one scan *)

Lemma isValid_not_null_or_invalid (res : option UnifiedMrzResult) :
  isNullOrInvalid res = negb (isValid res).
Proof. destruct res as [r|]; [cbn; destruct (verification_status r)|]; reflexivity. Qed.

Lemma scanLast_app (a b : list (list jsstring)) :
  forall result, isValid result = false ->
    scanLast (a ++ b) result
    = if isValid (scanLast a result) then scanLast a result
      else scanLast b (scanLast a result).
Proof.
  induction a as [|x a IH]; intros result N; cbn [app scanLast].
  - now rewrite N.
  - destruct (isValid (tryParseCustom x)) eqn:V; [now rewrite V|].
    apply IH. destruct (tryParseCustom x); [exact V | exact N].
Qed.

Lemma scanFirst_app (a b : list (list jsstring)) :
  forall result, isValid result = false ->
    scanFirst (a ++ b) result
    = if isValid (scanFirst a result) then scanFirst a result
      else scanFirst b (scanFirst a result).
Proof.
  induction a as [|x a IH]; intros result N; cbn [app scanFirst].
  - now rewrite N.
  - destruct (isValid (tryParseCustom x)) eqn:V; [now rewrite V|].
    apply IH. destruct (tryParseCustom x), result; trivial.
Qed.

Lemma td3Inner_scan (c1 : jsstring) (l2C : list jsstring) :
  forall result,
    td3Inner c1 l2C result = scanLast (map (fun c2 => [c1; c2]) l2C) result.
Proof.
  induction l2C as [|c2 rest IH]; intros result; [reflexivity|].
  cbn [td3Inner map scanLast]. destruct (isValid _); [reflexivity | apply IH].
Qed.

Lemma td3Outer_scan (l1C l2C : list jsstring) :
  forall result, isValid result = false ->
    td3Outer l1C l2C result = scanLast (blocks2 l1C l2C) result.
Proof.
  unfold blocks2.
  induction l1C as [|c1 rest IH]; intros result N; [reflexivity|].
  cbn [td3Outer flat_map]. rewrite scanLast_app by exact N.
  rewrite td3Inner_scan.
  destruct (isValid (scanLast _ result)) eqn:V; [reflexivity | now apply IH].
Qed.

Lemma td1Inner_scan (c1 c2 : jsstring) (l3C : list jsstring) :
  forall result,
    td1Inner c1 c2 l3C result
    = scanFirst (map (fun c3 => [c1; c2; c3]) l3C) result.
Proof.
  induction l3C as [|c3 rest IH]; intros result; [reflexivity|].
  cbn [td1Inner map scanFirst]. destruct (isValid _); [reflexivity | apply IH].
Qed.

Lemma td1Middle_scan (c1 : jsstring) (l2C l3C : list jsstring) :
  forall result, isValid result = false ->
    td1Middle c1 l2C l3C result
    = scanFirst (flat_map (fun c2 => map (fun c3 => [c1; c2; c3]) l3C) l2C)
                result.
Proof.
  induction l2C as [|c2 rest IH]; intros result N; [reflexivity|].
  cbn [td1Middle flat_map]. rewrite scanFirst_app by exact N.
  rewrite td1Inner_scan.
  destruct (isValid (scanFirst _ result)) eqn:V; [reflexivity | now apply IH].
Qed.

Lemma td1Outer_scan (l1C l2C l3C : list jsstring) :
  forall result, isValid result = false ->
    td1Outer l1C l2C l3C result = scanFirst (blocks3 l1C l2C l3C) result.
Proof.
  unfold blocks3.
  induction l1C as [|c1 rest IH]; intros result N; [reflexivity|].
  cbn [td1Outer flat_map]. rewrite scanFirst_app by exact N.
  rewrite td1Middle_scan by exact N.
  destruct (isValid (scanFirst _ result)) eqn:V; [reflexivity | now apply IH].
Qed.

Lemma tryTD3_scan (mrzLines : list jsstring) :
  2 <= length mrzLines ->
  tryTD3 mrzLines None = scanLast (td3Blocks mrzLines) None.
Proof.
  intros L. unfold tryTD3, td3Blocks. apply Nat.leb_le in L. rewrite L.
  cbn [andb]. now apply td3Outer_scan.
Qed.

Lemma tryTD3_short (mrzLines : list jsstring) :
  length mrzLines < 2 -> tryTD3 mrzLines None = None.
Proof.
  intros L. unfold tryTD3. apply Nat.leb_gt in L. now rewrite L.
Qed.

Lemma tryTD1_scan (mrzLines : list jsstring) (result : option UnifiedMrzResult) :
  3 <= length mrzLines -> isValid result = false ->
  tryTD1 mrzLines result = scanFirst (td1Blocks mrzLines) result.
Proof.
  intros L N. unfold tryTD1, td1Blocks. apply Nat.leb_le in L.
  rewrite isValid_not_null_or_invalid, N, L. cbn [negb andb].
  now apply td1Outer_scan.
Qed.

Lemma tryTD1_skipped (mrzLines : list jsstring) (result : option UnifiedMrzResult) :
  isValid result = true \/ length mrzLines < 3 ->
  tryTD1 mrzLines result = result.
Proof.
  intros H. unfold tryTD1. rewrite isValid_not_null_or_invalid.
  destruct H as [V | L].
  - now rewrite V.
  - apply Nat.leb_gt in L. rewrite L. now rewrite andb_false_r.
Qed.

(** *** What a scan returns *)

Lemma scanLast_first_valid (blocks : list (list jsstring)) (b : list jsstring) :
  find validBlock blocks = Some b ->
  forall result, scanLast blocks result = tryParseCustom b.
Proof.
  induction blocks as [|x rest IH]; [discriminate|].
  cbn [find scanLast]. unfold validBlock at 1.
  destruct (isValid (tryParseCustom x)) eqn:V.
  - intros [= <-] result. reflexivity.
  - intros F result. now apply IH.
Qed.

Lemma scanLast_no_valid (blocks : list (list jsstring)) :
  find validBlock blocks = None ->
  forall result, isValid result = false ->
                 isValid (scanLast blocks result) = false.
Proof.
  induction blocks as [|x rest IH]; intros F result N; [exact N|].
  cbn [find scanLast] in *. unfold validBlock at 1 in F.
  destruct (isValid (tryParseCustom x)) eqn:V; [discriminate|].
  apply IH; [exact F|]. destruct (tryParseCustom x); [exact V | exact N].
Qed.

Lemma scanFirst_result (blocks : list (list jsstring)) :
  forall result, isValid result = false ->
    scanFirst blocks result
    = match find validBlock blocks with
      | Some b => tryParseCustom b
      | None =>
          match result with
          | Some _ => result
          | None =>
              match find decodedBlock blocks with
              | Some b => tryParseCustom b
              | None => None
              end
          end
      end.
Proof.
  induction blocks as [|x rest IH]; intros result N.
  - cbn. now destruct result.
  - cbn [find scanFirst]. unfold validBlock at 1, decodedBlock at 1.
    destruct (isValid (tryParseCustom x)) eqn:V; [reflexivity|].
    rewrite IH.
    + destruct (find validBlock rest); [reflexivity|].
      destruct (tryParseCustom x) as [rx|] eqn:E, result as [r0|];
        cbn; rewrite ?E; reflexivity.
    + destruct (tryParseCustom x), result; trivial.
Qed.

Lemma find_first (A : Type) (f : A -> bool) (l : list A) (x : A) :
  In x l -> f x = true -> exists y, find f l = Some y.
Proof.
  induction l as [|a r IH]; [contradiction|]. intros I T. cbn [find].
  destruct (f a) eqn:E; [now exists a|].
  destruct I as [-> | I]; [congruence | now apply IH].
Qed.

Lemma scanLast_from (blocks : list (list jsstring)) :
  forall result r,
    scanLast blocks result = Some r ->
    result = Some r \/ exists b, In b blocks /\ tryParseCustom b = Some r.
Proof.
  induction blocks as [|x rest IH]; intros result r H; [now left|].
  cbn [scanLast] in H. destruct (isValid (tryParseCustom x)).
  - right. exists x. split; [now left | exact H].
  - apply IH in H. destruct H as [H | (b & I & H)].
    + destruct (tryParseCustom x) eqn:E; [|now left].
      right. exists x. split; [now left | congruence].
    + right. exists b. split; [now right | exact H].
Qed.

Lemma scanFirst_from (blocks : list (list jsstring)) :
  forall result r,
    scanFirst blocks result = Some r ->
    result = Some r \/ exists b, In b blocks /\ tryParseCustom b = Some r.
Proof.
  induction blocks as [|x rest IH]; intros result r H; [now left|].
  cbn [scanFirst] in H. destruct (isValid (tryParseCustom x)).
  - right. exists x. split; [now left | exact H].
  - apply IH in H. destruct H as [H | (b & I & H)].
    + destruct (tryParseCustom x) eqn:E, result; try (now left).
      right. exists x. split; [now left | congruence].
    + right. exists b. split; [now right | exact H].
Qed.

(** *** The blocks of the two attempts *)

Lemma getCandidates_length (line : jsstring) (n : nat) (c : jsstring) :
  In c (getCandidates line n) -> length c = n.
Proof.
  intros H. apply getCandidates_In in H. destruct H as (i & L & ->).
  now apply substring_length.
Qed.

Lemma getCandidates_nil (line : jsstring) (n : nat) :
  getCandidates line n = [] <-> length line < n.
Proof.
  split.
  - intros E. destruct (Nat.lt_ge_cases (length line) n) as [L|L]; [exact L|].
    assert (I : In (substring 0 (0 + n) line) (getCandidates line n)).
    { apply getCandidates_In. exists 0. split; [lia | reflexivity]. }
    rewrite E in I. contradiction.
  - intros L. destruct (getCandidates line n) as [|c r] eqn:E; [reflexivity|].
    assert (I : In c (getCandidates line n)) by (rewrite E; now left).
    apply getCandidates_In in I. destruct I as (i & K & _). lia.
Qed.

Lemma blocks2_In (l1C l2C : list jsstring) (b : list jsstring) :
  In b (blocks2 l1C l2C)
  <-> exists c1 c2, b = [c1; c2] /\ In c1 l1C /\ In c2 l2C.
Proof.
  unfold blocks2. rewrite in_flat_map. split.
  - intros (c1 & I1 & H). apply in_map_iff in H. destruct H as (c2 & <- & I2).
    now exists c1, c2.
  - intros (c1 & c2 & -> & I1 & I2). exists c1. split; [exact I1|].
    apply in_map_iff. now exists c2.
Qed.

Lemma blocks3_In (l1C l2C l3C : list jsstring) (b : list jsstring) :
  In b (blocks3 l1C l2C l3C)
  <-> exists c1 c2 c3, b = [c1; c2; c3] /\ In c1 l1C /\ In c2 l2C /\ In c3 l3C.
Proof.
  unfold blocks3. rewrite in_flat_map. split.
  - intros (c1 & I1 & H). apply in_flat_map in H. destruct H as (c2 & I2 & H).
    apply in_map_iff in H. destruct H as (c3 & <- & I3). now exists c1, c2, c3.
  - intros (c1 & c2 & c3 & -> & I1 & I2 & I3). exists c1. split; [exact I1|].
    apply in_flat_map. exists c2. split; [exact I2|].
    apply in_map_iff. now exists c3.
Qed.

Lemma blocks2_nil (l1C l2C : list jsstring) :
  blocks2 l1C l2C = [] <-> l1C = [] \/ l2C = [].
Proof.
  split.
  - intros E. destruct l1C as [|c1 r1]; [now left|].
    destruct l2C as [|c2 r2]; [now right|]. discriminate.
  - intros [-> | ->]; [reflexivity|]. unfold blocks2.
    induction l1C as [|c1 r IH]; [reflexivity | exact IH].
Qed.

Lemma blocks3_nil (l1C l2C l3C : list jsstring) :
  blocks3 l1C l2C l3C = [] <-> l1C = [] \/ l2C = [] \/ l3C = [].
Proof.
  split.
  - intros E. destruct l1C as [|c1 r1]; [now left|].
    destruct l2C as [|c2 r2]; [right; now left|].
    destruct l3C as [|c3 r3]; [right; now right|]. discriminate.
  - intros H. destruct (blocks3 l1C l2C l3C) as [|b r] eqn:E; [reflexivity|].
    assert (I : In b (blocks3 l1C l2C l3C)) by (rewrite E; now left).
    apply blocks3_In in I. destruct I as (c1 & c2 & c3 & _ & I1 & I2 & I3).
    destruct H as [-> | [-> | ->]]; contradiction.
Qed.

Lemma td3Blocks_shape (mrzLines : list jsstring) (b : list jsstring) :
  In b (td3Blocks mrzLines) -> twoBy44 b.
Proof.
  intros H. apply blocks2_In in H. destruct H as (c1 & c2 & -> & I1 & I2).
  exists c1, c2. split; [reflexivity|].
  split; eapply getCandidates_length; eassumption.
Qed.

Lemma td1Blocks_shape (mrzLines : list jsstring) (b : list jsstring) :
  In b (td1Blocks mrzLines) -> threeBy30 b.
Proof.
  intros H. apply blocks3_In in H.
  destruct H as (c1 & c2 & c3 & -> & I1 & I2 & I3).
  exists c1, c2, c3. split; [reflexivity|].
  repeat split; eapply getCandidates_length; eassumption.
Qed.

Lemma twoBy44_decoded (b : list jsstring) : twoBy44 b -> decodedBlock b = true.
Proof.
  intros (c1 & c2 & -> & L1 & L2). unfold decodedBlock.
  now rewrite tryParseCustom_pair.
Qed.

Lemma threeBy30_decoded (b : list jsstring) : threeBy30 b -> decodedBlock b = true.
Proof.
  intros (c1 & c2 & c3 & -> & L1 & L2 & L3). unfold decodedBlock.
  now rewrite tryParseCustom_triple.
Qed.

Lemma td3Blocks_nil (mrzLines : list jsstring) :
  2 <= length mrzLines -> (td3Blocks mrzLines = [] <-> ~ fits44 mrzLines).
Proof.
  intros L. unfold td3Blocks, fits44. cbv zeta.
  rewrite blocks2_nil, !getCandidates_nil. lia.
Qed.

Lemma td1Blocks_nil (mrzLines : list jsstring) :
  3 <= length mrzLines -> (td1Blocks mrzLines = [] <-> ~ fits30 mrzLines).
Proof.
  intros L. unfold td1Blocks, fits30. cbv zeta.
  rewrite blocks3_nil, !getCandidates_nil. lia.
Qed.

Lemma scanLast_keeps (blocks : list (list jsstring)) :
  forall result, result <> None -> scanLast blocks result <> None.
Proof.
  induction blocks as [|x rest IH]; intros result N; [exact N|].
  cbn [scanLast]. destruct (isValid (tryParseCustom x)) eqn:V.
  - now apply isValid_some.
  - apply IH. destruct (tryParseCustom x); [discriminate | exact N].
Qed.

Lemma scanFirst_keeps (blocks : list (list jsstring)) :
  forall result, result <> None -> scanFirst blocks result <> None.
Proof.
  induction blocks as [|x rest IH]; intros result N; [exact N|].
  cbn [scanFirst]. destruct (isValid (tryParseCustom x)) eqn:V.
  - now apply isValid_some.
  - apply IH. destruct (tryParseCustom x), result; congruence.
Qed.

Lemma scanLast_none (blocks : list (list jsstring)) :
  (forall b, In b blocks -> decodedBlock b = true) ->
  (scanLast blocks None = None <-> blocks = []).
Proof.
  intros D. split; [|now intros ->].
  destruct blocks as [|x rest]; [reflexivity|]. intros H. exfalso. revert H.
  cbn [scanLast]. specialize (D x (or_introl eq_refl)). unfold decodedBlock in D.
  destruct (tryParseCustom x) as [r|]; [|discriminate].
  destruct (isValid (Some r)); [discriminate|].
  apply scanLast_keeps. discriminate.
Qed.

Lemma scanFirst_none (blocks : list (list jsstring)) :
  (forall b, In b blocks -> decodedBlock b = true) ->
  (scanFirst blocks None = None <-> blocks = []).
Proof.
  intros D. split; [|now intros ->].
  destruct blocks as [|x rest]; [reflexivity|]. intros H. exfalso. revert H.
  cbn [scanFirst]. specialize (D x (or_introl eq_refl)). unfold decodedBlock in D.
  destruct (tryParseCustom x) as [r|]; [|discriminate].
  destruct (isValid (Some r)); [discriminate|].
  apply scanFirst_keeps. discriminate.
Qed.

Lemma tryTD1_some (mrzLines : list jsstring) (r0 : UnifiedMrzResult) :
  tryTD1 mrzLines (Some r0) <> None.
Proof.
  destruct (tryTD1_kept mrzLines r0) as [-> | (r & -> & _)]; discriminate.
Qed.

Lemma resolveLines_none (mrzLines : list jsstring) :
  resolveLines mrzLines = None <-> ~ fits44 mrzLines /\ ~ fits30 mrzLines.
Proof.
  unfold resolveLines.
  destruct (Nat.lt_ge_cases (length mrzLines) 2) as [L2 | L2].
  - rewrite tryTD3_short by exact L2. rewrite tryTD1_skipped by (right; lia).
    unfold fits44, fits30. split; [lia | reflexivity].
  - rewrite tryTD3_scan by exact L2.
    pose proof (td3Blocks_nil mrzLines L2) as N3.
    pose proof (scanLast_none (td3Blocks mrzLines)
                  (fun b I => twoBy44_decoded b (td3Blocks_shape mrzLines b I)))
      as S3.
    destruct (scanLast (td3Blocks mrzLines) None) as [r3|] eqn:E3.
    + split; [intros H; now apply tryTD1_some in H|].
      intros [F _]. exfalso. apply F.
      destruct (td3Blocks mrzLines) as [|b rest] eqn:B.
      * discriminate.
      * destruct N3 as [_ N3].
        destruct (Nat.lt_ge_cases (length (nth 0 (sliceLast 2 mrzLines) [])) 44);
          destruct (Nat.lt_ge_cases (length (nth 1 (sliceLast 2 mrzLines) [])) 44);
          try (now repeat split);
          (assert (X : ~ fits44 mrzLines) by (unfold fits44; lia);
           apply N3 in X; discriminate).
    + assert (B : td3Blocks mrzLines = []) by now apply S3.
      apply N3 in B.
      destruct (Nat.lt_ge_cases (length mrzLines) 3) as [L3 | L3].
      * rewrite tryTD1_skipped by (right; lia).
        unfold fits30. split; [intros _; split; [exact B | lia] | reflexivity].
      * rewrite tryTD1_scan by trivial.
        rewrite (scanFirst_none (td1Blocks mrzLines)
                   (fun b I => threeBy30_decoded b (td1Blocks_shape mrzLines b I))).
        rewrite (td1Blocks_nil mrzLines L3). tauto.
Qed.

(** X3. The resolver ends without a record exactly when the lines fit
    neither layout: either there are fewer than two lines or one of the last
    two is shorter than 44 characters, and either there are fewer than three
    lines or one of the last three is shorter than 30 characters.  Check
    digits play no part in it: wide enough lines always give a record. *)
Theorem resolveLines_none_iff_no_fit (mrzLines : list jsstring) :
  resolveLines mrzLines = None <-> ~ fits44 mrzLines /\ ~ fits30 mrzLines.
Proof. exact (resolveLines_none mrzLines). Qed.

Lemma parseTD3_status (lines : list jsstring) (r : UnifiedMrzResult) :
  parseTD3 lines = Some r -> (verification_status r = VALID <-> errors r = []).
Proof.
  destruct lines as [|l1 [|l2 rest]]; try discriminate.
  unfold parseTD3. intros H. injection H as <-.
  cbn [verification_status errors]. apply statusOf_valid.
Qed.

Lemma parseTD1_status (lines : list jsstring) (r : UnifiedMrzResult) :
  parseTD1 lines = Some r -> (verification_status r = VALID <-> errors r = []).
Proof.
  destruct lines as [|l1 [|l2 [|l3 rest]]]; try discriminate.
  unfold parseTD1. intros H. injection H as <-.
  cbn [verification_status errors]. apply statusOf_valid.
Qed.

Lemma tryParseCustom_status (lines : list jsstring) (r : UnifiedMrzResult) :
  tryParseCustom lines = Some r ->
  (verification_status r = VALID <-> errors r = []).
Proof.
  unfold tryParseCustom. destruct (_ && _); [apply parseTD3_status|].
  destruct (_ && _); [apply parseTD1_status | discriminate].
Qed.

Lemma resolveLines_from (mrzLines : list jsstring) (r : UnifiedMrzResult) :
  resolveLines mrzLines = Some r ->
  exists b,
    tryParseCustom b = Some r
    /\ ((2 <= length mrzLines /\ In b (td3Blocks mrzLines))
        \/ (3 <= length mrzLines /\ In b (td1Blocks mrzLines))).
Proof.
  unfold resolveLines. intros H.
  assert (T3 : forall r3, tryTD3 mrzLines None = Some r3 ->
                          exists b, tryParseCustom b = Some r3
                                    /\ 2 <= length mrzLines
                                    /\ In b (td3Blocks mrzLines)).
  { intros r3 E. destruct (Nat.lt_ge_cases (length mrzLines) 2) as [L | L].
    - rewrite tryTD3_short in E by exact L. discriminate.
    - rewrite tryTD3_scan in E by exact L. apply scanLast_from in E.
      destruct E as [E | (b & I & E)]; [discriminate|]. now exists b. }
  destruct (isValid (tryTD3 mrzLines None)) eqn:V.
  - rewrite tryTD1_skipped in H by now left.
    destruct (T3 r H) as (b & E & L & I). exists b. split; [exact E|]. now left.
  - destruct (Nat.lt_ge_cases (length mrzLines) 3) as [L | L].
    + rewrite tryTD1_skipped in H by now right.
      destruct (T3 r H) as (b & E & K & I). exists b. split; [exact E|]. now left.
    + rewrite tryTD1_scan in H by trivial. apply scanFirst_from in H.
      destruct H as [H | (b & I & E)].
      * destruct (T3 r H) as (b & E & K & I). exists b. split; [exact E|]. now left.
      * exists b. split; [exact E|]. now right.
Qed.

(** X4. Every record the resolver returns is the decode of windows of
    exact width taken from the last lines: a PASSPORT record carries as
    [raw_lines] a 44-column window of the line before the last and one of
    the last line, an ID_CARD record three 30-column windows of the last
    three lines; and it is VALID exactly when its error list is empty. *)
Theorem resolveLines_decodes_windows (mrzLines : list jsstring) (r : UnifiedMrzResult) :
  resolveLines mrzLines = Some r ->
  (verification_status r = VALID <-> errors r = [])
  /\ ((document_type r = PASSPORT /\ 2 <= length mrzLines
       /\ exists c1 c2,
            raw_lines r = [c1; c2] /\ length c1 = 44 /\ length c2 = 44
            /\ In c1 (getCandidates (nth 0 (sliceLast 2 mrzLines) []) 44)
            /\ In c2 (getCandidates (nth 1 (sliceLast 2 mrzLines) []) 44))
      \/ (document_type r = ID_CARD /\ 3 <= length mrzLines
          /\ exists c1 c2 c3,
               raw_lines r = [c1; c2; c3]
               /\ length c1 = 30 /\ length c2 = 30 /\ length c3 = 30
               /\ In c1 (getCandidates (nth 0 (sliceLast 3 mrzLines) []) 30)
               /\ In c2 (getCandidates (nth 1 (sliceLast 3 mrzLines) []) 30)
               /\ In c3 (getCandidates (nth 2 (sliceLast 3 mrzLines) []) 30))).
Proof.
  intros H. apply resolveLines_from in H. destruct H as (b & E & H).
  split; [now apply (tryParseCustom_status b)|].
  pose proof (tryParseCustom_some b r E) as [R S].
  destruct H as [[L I] | [L I]].
  - left. apply blocks2_In in I. destruct I as (c1 & c2 & -> & I1 & I2).
    destruct S as [[_ D] | [(x & y & z & X & _) _]]; [|discriminate].
    repeat split; trivial. exists c1, c2. repeat split; trivial;
      eapply getCandidates_length; eassumption.
  - right. apply blocks3_In in I. destruct I as (c1 & c2 & c3 & -> & I1 & I2 & I3).
    destruct S as [[(x & y & X & _) _] | [_ D]]; [discriminate|].
    repeat split; trivial. exists c1, c2, c3. repeat split; trivial;
      eapply getCandidates_length; eassumption.
Qed.

Lemma resolveLines_decodes_windows_witness :
  exists r,
    resolveLines [cardLine1; passportLine1; shiftedLine2] = Some r
    /\ (verification_status r = VALID <-> errors r = [])
    /\ raw_lines r = [passportLine1; passportLine2].
Proof.
  eexists. split; [vm_compute; reflexivity|].
  split; [|reflexivity].
  eapply (proj1 (resolveLines_decodes_windows
                   [cardLine1; passportLine1; shiftedLine2] _ _)).
  Unshelve. vm_compute. reflexivity.
Defined.

(** X5. The resolver returns a VALID record if and only if some block of
    windows validates: a pair of 44-column windows of the last two lines, or,
    when there are three lines or more, a triple of 30-column windows of the
    last three. *)
Theorem resolveLines_valid_iff_some_block_valid (mrzLines : list jsstring) :
  isValid (resolveLines mrzLines) = true
  <-> (2 <= length mrzLines
       /\ exists b, In b (td3Blocks mrzLines) /\ validBlock b = true)
      \/ (3 <= length mrzLines
          /\ exists b, In b (td1Blocks mrzLines) /\ validBlock b = true).
Proof.
  split.
  - intros V. destruct (resolveLines mrzLines) as [r|] eqn:E; [|discriminate].
    apply resolveLines_from in E. destruct E as (b & E & H).
    assert (validBlock b = true) by (unfold validBlock; now rewrite E).
    destruct H as [[L I] | [L I]]; [left | right]; split; trivial; now exists b.
  - unfold resolveLines. intros [[L (b & I & V)] | [L (b & I & V)]].
    + destruct (find_first _ validBlock _ b I V) as (y & F).
      pose proof (find_some _ _ F) as [_ Vy].
      rewrite tryTD3_scan by exact L.
      rewrite (scanLast_first_valid _ y F).
      rewrite tryTD1_skipped by (left; exact Vy). exact Vy.
    + destruct (isValid (tryTD3 mrzLines None)) eqn:V3.
      * rewrite tryTD1_skipped by now left. exact V3.
      * rewrite tryTD1_scan by trivial. rewrite scanFirst_result by exact V3.
        destruct (find_first _ validBlock _ b I V) as (y & F). rewrite F.
        now apply find_some in F.
Qed.

(** X6. In the TD-3 attempt the first pair of windows that validates, in
    the order of the loops (windows of the first line outermost), is the
    result of the whole resolver: the pairs behind it are not tried and the
    TD-1 attempt is skipped. *)
Theorem td3_first_valid_pair_is_result (mrzLines : list jsstring) (b : list jsstring) :
  2 <= length mrzLines ->
  find validBlock (td3Blocks mrzLines) = Some b ->
  resolveLines mrzLines = tryParseCustom b
  /\ isValid (resolveLines mrzLines) = true.
Proof.
  intros L F. unfold resolveLines. rewrite tryTD3_scan by exact L.
  rewrite (scanLast_first_valid _ b F).
  pose proof (find_some _ _ F) as [_ V].
  rewrite tryTD1_skipped by (left; exact V). now split.
Qed.

Lemma td3_first_valid_pair_is_result_witness :
  td3Blocks [cardLine1; passportLine1; shiftedLine2]
  = [[passportLine1; substring 0 44 shiftedLine2]; [passportLine1; passportLine2]]
  /\ resolveLines [cardLine1; passportLine1; shiftedLine2]
     = tryParseCustom [passportLine1; passportLine2]
  /\ isValid (resolveLines [cardLine1; passportLine1; shiftedLine2]) = true.
Proof.
  split; [reflexivity|].
  apply (td3_first_valid_pair_is_result
           [cardLine1; passportLine1; shiftedLine2] [passportLine1; passportLine2]).
  - cbn. lia.
  - vm_compute. reflexivity.
Defined.

Lemma find_decoded_head (blocks : list (list jsstring)) :
  (forall b, In b blocks -> decodedBlock b = true) ->
  find decodedBlock blocks = hd_error blocks.
Proof.
  destruct blocks as [|x rest]; [reflexivity|]. intros D. cbn [find hd_error].
  now rewrite (D x (or_introl eq_refl)).
Qed.

(** X7. When three lines or more are present and the TD-3 attempt has left
    nothing VALID, the TD-1 attempt ends with the decode of the first triple
    of 30-column windows that validates, in the order of the loops; when no
    triple validates it keeps the record left by the TD-3 attempt, and when
    there is none it ends with the decode of the very first triple (all
    windows at offset 0), or with nothing when a line is too short. *)
Theorem tryTD1_selection (mrzLines : list jsstring) (result : option UnifiedMrzResult) :
  3 <= length mrzLines ->
  isNullOrInvalid result = true ->
  tryTD1 mrzLines result
  = match find validBlock (td1Blocks mrzLines) with
    | Some b => tryParseCustom b
    | None =>
        match result with
        | Some _ => result
        | None =>
            match td1Blocks mrzLines with
            | b :: _ => tryParseCustom b
            | [] => None
            end
        end
    end.
Proof.
  intros L N. rewrite isValid_not_null_or_invalid in N.
  apply negb_true_iff in N.
  rewrite tryTD1_scan by trivial. rewrite scanFirst_result by exact N.
  rewrite (find_decoded_head (td1Blocks mrzLines)
             (fun b I => threeBy30_decoded b (td1Blocks_shape mrzLines b I))).
  destruct (td1Blocks mrzLines); reflexivity.
Qed.

Lemma tryTD1_selection_witness :
  tryTD1 [cardLine1; cardLine2; cardLine3] None
  = tryParseCustom [cardLine1; cardLine2; cardLine3]
  /\ isValid (tryTD1 [cardLine1; cardLine2; cardLine3] None) = true.
Proof.
  split; [|reflexivity].
  rewrite (tryTD1_selection [cardLine1; cardLine2; cardLine3] None);
    [reflexivity | cbn; lia | reflexivity].
Defined.

(** ** Decoders: verdict and checks *)

Lemma parseInt_undefined : parseInt (lit "undefined") Radix10 = None.
Proof. reflexivity. Qed.

Lemma verifyField_checkOk (field line type : jsstring) (k : nat) (ln : Z) :
  verifyField field (indexStr line k) type ln = None <-> checkOk field line k = true.
Proof.
  unfold verifyField, indexStr, checkOk. destruct (nth_error line k) as [c|].
  - rewrite parseInt_one_char. destruct (isDigit c); [|split; discriminate].
    cbn [andb]. destruct (Z.eqb _ _); cbn [negb]; split; congruence.
  - rewrite parseInt_undefined. split; discriminate.
Qed.

Lemma verifyField_message (field check type : jsstring) (ln : Z) (msg : jsstring) :
  verifyField field check type ln = Some msg -> msg <> [].
Proof.
  unfold verifyField. destruct (parseInt check Radix10) as [e|].
  - destruct (negb _); [|discriminate]. intros [= <-] E.
    apply app_eq_nil in E. destruct E as [_ E]. discriminate.
  - intros [= <-]. discriminate.
Qed.

Lemma pushError_length (errs : list jsstring) (field line type : jsstring)
  (k : nat) (ln : Z) :
  length (pushError errs (verifyField field (indexStr line k) type ln))
  = length errs + (if checkOk field line k then 0 else 1).
Proof.
  pose proof (verifyField_checkOk field line type k ln) as C.
  destruct (verifyField field (indexStr line k) type ln) as [msg|] eqn:E.
  - apply verifyField_message in E.
    destruct (checkOk field line k); [destruct C as [_ C]; now discriminate C|].
    destruct msg as [|c m]; [contradiction|]. cbn [pushError].
    rewrite length_app. reflexivity.
  - destruct C as [C _]. rewrite C by reflexivity. cbn [pushError]. lia.
Qed.

Lemma statusOf_length (errs : list jsstring) :
  statusOf errs = VALID <-> length errs = 0.
Proof. rewrite statusOf_valid. destruct errs; cbn; split; congruence. Qed.

(** X8. [parseTD3] reports one error per failing check and nothing else:
    the length of the error list is the number of the five checks (document
    number, birth date, expiry, personal number, composite) whose check
    column does not hold the decimal digit computed from the field, and the
    record is VALID exactly when none fails.  A check column that holds a
    filler or a letter is a failure, also behind an empty personal number;
    the first line plays no part in the verdict. *)
Theorem parseTD3_verdict (l1 l2 : jsstring) :
  exists r,
    parseTD3 [l1; l2] = Some r
    /\ length (errors r) = failures (td3Checks l2)
    /\ (verification_status r = VALID <-> failures (td3Checks l2) = 0).
Proof.
  eexists. split; [reflexivity|]. cbn [errors verification_status].
  rewrite statusOf_length, !pushError_length. cbn [length].
  unfold failures, td3Checks.
  repeat match goal with
         | |- context [checkOk ?f ?l ?k] => destruct (checkOk f l k)
         end; cbn; split; try reflexivity; split; congruence.
Qed.

Lemma parseTD3_verdict_witness :
  exists r,
    parseTD3 [passportLine1; compositeDamagedLine2] = Some r
    /\ length (errors r) = 1
    /\ verification_status r = INVALID.
Proof.
  assert (F : failures (td3Checks compositeDamagedLine2) = 1)
    by (vm_compute; reflexivity).
  destruct (parseTD3_verdict passportLine1 compositeDamagedLine2)
    as (r & E & L & V).
  rewrite F in L, V. exists r. split; [exact E|]. split; [exact L|].
  destruct (verification_status r); [|reflexivity].
  destruct V as [V _]. specialize (V eq_refl). discriminate V.
Defined.

(** X9. [parseTD1] reports one error per failing check and nothing else:
    the length of the error list is the number of the four checks (document
    number on line 1, birth date, expiry and composite on line 2) whose check
    column does not hold the decimal digit computed from the field, and the
    record is VALID exactly when none fails.  The third line, which holds
    the names, plays no part in the verdict. *)
Theorem parseTD1_verdict (l1 l2 l3 : jsstring) :
  exists r,
    parseTD1 [l1; l2; l3] = Some r
    /\ length (errors r) = failures (td1Checks l1 l2)
    /\ (verification_status r = VALID <-> failures (td1Checks l1 l2) = 0).
Proof.
  eexists. split; [reflexivity|]. cbn [errors verification_status].
  rewrite statusOf_length, !pushError_length. cbn [length].
  unfold failures, td1Checks.
  repeat match goal with
         | |- context [checkOk ?f ?l ?k] => destruct (checkOk f l k)
         end; cbn; split; try reflexivity; split; congruence.
Qed.

(** ** Check digit: padding and substitutions *)

Lemma checkDigitLoop_app (a b : jsstring) :
  forall i sum,
    checkDigitLoop (a ++ b) i sum
    = checkDigitLoop b (i + length a) (checkDigitLoop a i sum).
Proof.
  induction a as [|c a IH]; intros i sum; cbn [app checkDigitLoop length].
  - now rewrite Nat.add_0_r.
  - rewrite IH. f_equal. lia.
Qed.

Lemma checkDigitLoop_fillers (n : nat) :
  forall i sum, checkDigitLoop (repeat "<" n) i sum = sum.
Proof.
  induction n as [|n IH]; intros i sum; [reflexivity|].
  cbn [repeat checkDigitLoop]. rewrite IH.
  change (getCharValue "<") with 0%Z. lia.
Qed.

(** X10. The check digit is a single decimal digit, between 0 and 9, and
    fillers appended to a field do not change it: padding a field with '<'
    on the right leaves its check digit as it was. *)
Theorem calculateCheckDigit_padding (data : jsstring) (n : nat) :
  (0 <= calculateCheckDigit data <= 9)%Z
  /\ calculateCheckDigit (data ++ repeat "<" n) = calculateCheckDigit data.
Proof.
  unfold calculateCheckDigit. split.
  - pose proof (Z.mod_pos_bound (checkDigitLoop data 0 0) 10). lia.
  - now rewrite checkDigitLoop_app, checkDigitLoop_fillers.
Qed.

Lemma weight_cases (n : nat) :
  nth (n mod 3) weights 0%Z = 7%Z \/ nth (n mod 3) weights 0%Z = 3%Z
  \/ nth (n mod 3) weights 0%Z = 1%Z.
Proof.
  pose proof (Nat.mod_upper_bound n 3) as B.
  destruct (n mod 3) as [|[|[|k]]]; cbn; auto. lia.
Qed.

Lemma getCharValue_digit (c : ascii) :
  isDigit c = true ->
  getCharValue c = (Z.of_nat (code c) - 48)%Z /\ (0 <= getCharValue c <= 9)%Z.
Proof.
  intros D. unfold getCharValue. rewrite D. split; [reflexivity|].
  unfold isDigit in D. apply andb_true_iff in D. destruct D as [A B].
  apply Nat.leb_le in A. apply Nat.leb_le in B. lia.
Qed.

Lemma digit_value_inj (c d : ascii) :
  isDigit c = true -> isDigit d = true -> getCharValue c = getCharValue d -> c = d.
Proof.
  intros C D E.
  destruct (getCharValue_digit c C) as [Ec Bc].
  destruct (getCharValue_digit d D) as [Ed Bd].
  rewrite Ec, Ed in E. assert (N : code c = code d) by lia.
  unfold code in N.
  rewrite <- (ascii_nat_embedding c), <- (ascii_nat_embedding d). now rewrite N.
Qed.

Lemma calculateCheckDigit_substitution (pre post : jsstring) (d d' : ascii) :
  isDigit d = true -> isDigit d' = true ->
  calculateCheckDigit (pre ++ d :: post) = calculateCheckDigit (pre ++ d' :: post) ->
  d = d'.
Proof.
  intros D D'. unfold calculateCheckDigit.
  rewrite !checkDigitLoop_app. cbn [checkDigitLoop].
  rewrite !(checkDigitLoop_sum post). rewrite Nat.add_0_l.
  generalize (weightedSum getCharValue (S (length pre)) post) as B.
  generalize (checkDigitLoop pre 0 0) as A. intros A B E.
  apply digit_value_inj; trivial.
  destruct (getCharValue_digit d D) as [_ Bd].
  destruct (getCharValue_digit d' D') as [_ Bd'].
  destruct (weight_cases (length pre)) as [W | [W | W]]; rewrite W in E;
    match type of E with
    | (?x mod 10 = ?y mod 10)%Z =>
        pose proof (Z.div_mod x 10); pose proof (Z.div_mod y 10)
    end; lia.
Qed.

(** X11. A field that passes its check stops passing when one of its
    decimal digits is replaced by a different decimal digit: against the same
    check character [verifyField] then returns an error.  (The weights 7, 3
    and 1 are all invertible modulo 10.) *)
Theorem verifyField_detects_digit_substitution
  (pre post type : jsstring) (d d' c : ascii) (line : Z) :
  isDigit d = true -> isDigit d' = true -> d <> d' ->
  verifyField (pre ++ d :: post) [c] type line = None ->
  exists msg, verifyField (pre ++ d' :: post) [c] type line = Some msg.
Proof.
  intros D D' N. unfold verifyField. rewrite parseInt_one_char.
  destruct (isDigit c); [|discriminate].
  destruct (Z.eqb_spec (calculateCheckDigit (pre ++ d :: post))
                       (Z.of_nat (code c) - 48)) as [E|E]; [|discriminate].
  intros _.
  destruct (Z.eqb_spec (calculateCheckDigit (pre ++ d' :: post))
                       (Z.of_nat (code c) - 48)) as [E'|E'].
  - exfalso. apply N. apply (calculateCheckDigit_substitution pre post); trivial.
    congruence.
  - cbn [negb]. eexists. reflexivity.
Qed.

Lemma verifyField_detects_digit_substitution_witness :
  verifyField (lit "980101") ["5"] (lit "Date of Birth") 2 = None
  /\ exists msg, verifyField (lit "980201") ["5"] (lit "Date of Birth") 2 = Some msg.
Proof.
  split; [reflexivity|].
  apply (verifyField_detects_digit_substitution
           (lit "980") (lit "01") (lit "Date of Birth") "1" "2" "5" 2);
    try reflexivity.
  discriminate.
Defined.

(** ** Line extractor: the kept lines *)

Lemma toUpperChar_space (c : ascii) : isSpace (toUpperChar c) = isSpace c.
Proof. all_chars c. Qed.

Lemma toUpperChar_lt (c : ascii) : isLt (toUpperChar c) = isLt c.
Proof. all_chars c. Qed.

Lemma toUpperCase_length (s : jsstring) : length (toUpperCase s) = length s.
Proof. apply length_map. Qed.

Lemma toUpperCase_count_lt (s : jsstring) :
  count_occ ascii_dec (toUpperCase s) "<" = count_occ ascii_dec s "<".
Proof.
  rewrite !count_lt_filter. induction s as [|c r IH]; [reflexivity|].
  cbn [toUpperCase map filter]. rewrite toUpperChar_lt.
  destruct (isLt c); cbn [length]; unfold toUpperCase in IH; now rewrite IH.
Qed.

Lemma stripSpaces_no_space (s : jsstring) (c : ascii) :
  In c (stripSpaces s) -> isSpace c = false.
Proof.
  unfold stripSpaces. intros H. apply filter_In in H. destruct H as [_ H].
  now apply negb_true_iff in H.
Qed.

Lemma toUpperCase_In (s : jsstring) (c : ascii) :
  In c (toUpperCase s) -> exists a, In a s /\ c = toUpperChar a.
Proof.
  unfold toUpperCase. intros H. apply in_map_iff in H.
  destruct H as (a & <- & I). now exists a.
Qed.

Lemma extractMrzFromText_In (text l : jsstring) :
  In l (extractMrzFromText text) ->
  exists raw, l = toUpperCase (stripSpaces raw) /\ looksLikeMrz raw = true.
Proof.
  unfold extractMrzFromText. cbv zeta. intros H. apply in_map_iff in H.
  destruct H as (raw & <- & I). apply filter_In in I. destruct I as [_ K].
  now exists raw.
Qed.

Lemma extracted_line (text l : jsstring) :
  In l (extractMrzFromText text) ->
  20 <= length l <= 100
  /\ (forall c, In c l -> isSpace c = false /\ isLower c = false)
  /\ (2 <= count_occ ascii_dec l "<"
      \/ length l = 30 \/ length l = 36 \/ length l = 44).
Proof.
  intros H. apply extractMrzFromText_In in H. destruct H as (raw & -> & K).
  rewrite looksLikeMrz_keepsLineb in K. apply keepsLineb_spec in K.
  destruct K as (_ & B & C).
  rewrite toUpperCase_length, toUpperCase_count_lt. repeat split; try tauto.
  - apply toUpperCase_In in H. destruct H as (a & I & ->).
    rewrite toUpperChar_space. now apply (stripSpaces_no_space raw).
  - apply toUpperCase_In in H. destruct H as (a & I & ->).
    apply toUpperChar_not_lower.
Qed.

(** X12. On 7-bit text, every line returned by the extractor is between 20
    and 100 characters long, holds no white space and no lower-case letter,
    and has two fillers or more unless its length is exactly 30, 36 or 44:
    the conditions tested on the stripped line still hold after the final
    upper-casing, which on such text changes no length. *)
Theorem extractMrzFromText_lines (text l : jsstring) :
  sevenBit text ->
  In l (extractMrzFromText text) ->
  20 <= length l <= 100
  /\ (forall c, In c l -> isSpace c = false /\ isLower c = false)
  /\ (2 <= count_occ ascii_dec l "<"
      \/ length l = 30 \/ length l = 36 \/ length l = 44).
Proof. intros _. apply extracted_line. Qed.

Lemma extractMrzFromText_lines_witness :
  let text := lit "passport" ++ ["010"] ++ lit "  p<kgz surname<<name<<<<  " in
  extractMrzFromText text = [lit "P<KGZSURNAME<<NAME<<<<"]
  /\ 20 <= length (lit "P<KGZSURNAME<<NAME<<<<") <= 100.
Proof.
  cbv zeta. split; [reflexivity|].
  apply (extractMrzFromText_lines
           (lit "passport" ++ ["010"] ++ lit "  p<kgz surname<<name<<<<  ")).
  - reflexivity.
  - left. reflexivity.
Defined.

(** ** Normalizer: lengths and characters *)

Lemma repairs_refl (s : jsstring) : repairs s s.
Proof. split; [reflexivity | now left]. Qed.

Lemma repairs_trans (s t u : jsstring) : repairs s t -> repairs t u -> repairs s u.
Proof.
  intros [L1 H1] [L2 H2]. split; [congruence|]. intros i.
  destruct (H2 i) as [E2 | [E2 U2]], (H1 i) as [E1 | [E1 U1]].
  - left. congruence.
  - right. split; [congruence | exact U1].
  - right. split; [exact E2 | congruence].
  - rewrite E1 in U2. discriminate.
Qed.

Lemma isCL_isSLCK (c : ascii) : isCL c = true -> isSLCK c = true.
Proof. all_chars c; discriminate. Qed.

Lemma isLCK_isSLCK (c : ascii) : isLCK c = true -> isSLCK c = true.
Proof. all_chars c; discriminate. Qed.

Lemma fixStart_repairs (s : jsstring) : repairs s (fixStart s).
Proof.
  destruct (fixStart_cases s) as [[_ ->] | (p & b & rest & -> & B & ->)].
  - apply repairs_refl.
  - split; [reflexivity|]. intros [|[|i]].
    + now left.
    + right. now split.
    + now left.
Qed.

Lemma fixSeparators_turns_SLCK (s : jsstring) : repairs s (fixSeparators s).
Proof.
  destruct (fixSeparators_at s) as [Len Nth]. split; [exact Len|].
  intros i. rewrite Nth. destruct (sepPos s i) eqn:E; [right | now left].
  split; [reflexivity|]. apply isCL_isSLCK. now apply sepPos_isCL.
Qed.

Lemma map_toFiller_repairs (s : jsstring) : repairs s (map toFiller s).
Proof.
  split; [apply length_map|].
  induction s as [|c r IH]; intros i; [now left|].
  destruct i as [|i]; [|apply IH]. unfold at_. cbn [map nth].
  unfold toFiller. destruct (isLCK c) eqn:E; [right | now left].
  split; [reflexivity | now apply isLCK_isSLCK].
Qed.

Lemma tailRepair_repairs (s : jsstring) : repairs s (tailRepair s).
Proof.
  induction s as [|c r IH]; [apply repairs_refl|]. cbn [tailRepair].
  destruct (_ && _); [apply map_toFiller_repairs|].
  destruct IH as [Len Nth]. split; [cbn [length]; now rewrite Len|].
  intros [|i]; [now left | apply Nth].
Qed.

Lemma repaired_repairs (line : jsstring) :
  repairs (toUpperCase line) (repaired line).
Proof.
  unfold repaired. rewrite fixTail_tailRepair.
  eapply repairs_trans; [|apply tailRepair_repairs].
  eapply repairs_trans; [apply fixStart_repairs | apply fixSeparators_turns_SLCK].
Qed.

Lemma toUpperCase_at (s : jsstring) (i : nat) :
  toUpperCase s @ i = toUpperChar (s @ i).
Proof.
  unfold at_, toUpperCase. change " " with (toUpperChar " ") at 1.
  apply map_nth.
Qed.

Lemma startsWith_app (p s t : jsstring) :
  startsWith p s = true -> startsWith p (s ++ t) = true.
Proof.
  revert s. induction p as [|a p IH]; intros s H; [reflexivity|].
  destruct s as [|b s]; [discriminate|]. cbn [startsWith app] in *.
  apply andb_true_iff in H. destruct H as [E H]. rewrite E. now apply IH.
Qed.

Lemma fixLength_length (s : jsstring) :
  (fixLength s = s)
  \/ (30 < length s < 44 /\ fixLength s = padEnd 44 s
      /\ startsWith (lit "P<") s = true)
  \/ (20 < length s < 30 /\ fixLength s = padEnd 30 s
      /\ startsWith (lit "I<") s = true).
Proof.
  unfold fixLength.
  destruct (startsWith (lit "P<") s && (length s <? 44) && (30 <? length s)) eqn:P.
  - right. left. rewrite !andb_true_iff, !Nat.ltb_lt in P.
    destruct P as [[S A] B].
    replace (length (padEnd 44 s) <? 30) with false
      by (symmetry; apply Nat.ltb_ge; rewrite padEnd_length; lia).
    rewrite andb_false_r. cbn [andb]. repeat split; trivial.
  - destruct (startsWith (lit "I<") s && (length s <? 30) && (20 <? length s)) eqn:Q.
    + right. right. rewrite !andb_true_iff, !Nat.ltb_lt in Q.
      destruct Q as [[S A] B]. repeat split; trivial.
    + now left.
Qed.

Lemma padEnd_at (n : nat) (s : jsstring) (i : nat) :
  (i < length s -> padEnd n s @ i = s @ i)
  /\ (length s <= i < length (padEnd n s) -> padEnd n s @ i = "<").
Proof.
  unfold padEnd, at_. split; intros H.
  - now apply app_nth1.
  - rewrite length_app, repeat_length in H. rewrite app_nth2 by lia.
    apply nth_repeat_lt. lia.
Qed.

Lemma fixLength_at (s : jsstring) (i : nat) :
  (i < length s -> fixLength s @ i = s @ i)
  /\ (length s <= i < length (fixLength s) -> fixLength s @ i = "<").
Proof.
  destruct (fixLength_length s) as [-> | [(_ & -> & _) | (_ & -> & _)]];
    try apply padEnd_at.
  split; [reflexivity | lia].
Qed.

Lemma cleanMrzLine_len_cases (x : jsstring) :
  length (cleanMrzLine x) = length x
  \/ (30 < length x < 44 /\ length (cleanMrzLine x) = 44
      /\ startsWith (lit "P<") (cleanMrzLine x) = true)
  \/ (20 < length x < 30 /\ length (cleanMrzLine x) = 30
      /\ startsWith (lit "I<") (cleanMrzLine x) = true).
Proof.
  unfold cleanMrzLine. fold (repaired x).
  pose proof (repaired_length x) as R.
  destruct (fixLength_length (repaired x)) as [-> | [(B & -> & S) | (B & -> & S)]].
  - now left.
  - right. left. rewrite padEnd_length. repeat split; try lia.
    now apply startsWith_app.
  - right. right. rewrite padEnd_length. repeat split; try lia.
    now apply startsWith_app.
Qed.

(** X13. On a 7-bit line the normalizer never shortens the line and changes
    its length only by padding: the result has the length of the line, or
    the line had 31 to 43 characters and the result has 44 and starts with
    "P<", or the line had 21 to 29 characters and the result has 30 and
    starts with "I<". *)
Theorem cleanMrzLine_length (x : jsstring) :
  sevenBit x ->
  length x <= length (cleanMrzLine x)
  /\ (length (cleanMrzLine x) = length x
      \/ (30 < length x < 44 /\ length (cleanMrzLine x) = 44
          /\ startsWith (lit "P<") (cleanMrzLine x) = true)
      \/ (20 < length x < 30 /\ length (cleanMrzLine x) = 30
          /\ startsWith (lit "I<") (cleanMrzLine x) = true)).
Proof.
  intros _. pose proof (cleanMrzLine_len_cases x) as H. split; [|exact H].
  destruct H as [-> | [(B & -> & _) | (B & -> & _)]]; lia.
Qed.

Lemma cleanMrzLine_length_witness :
  length cutLine1 = 35
  /\ length cutLine1 <= length (cleanMrzLine cutLine1)
  /\ length (cleanMrzLine cutLine1) = 44.
Proof.
  split; [reflexivity|]. split; [|reflexivity].
  apply (cleanMrzLine_length cutLine1). reflexivity.
Defined.

Lemma cleanMrzLine_at (x : jsstring) (i : nat) :
  (i < length x ->
   cleanMrzLine x @ i = toUpperChar (x @ i)
   \/ (cleanMrzLine x @ i = "<" /\ isSLCK (toUpperChar (x @ i)) = true))
  /\ (length x <= i < length (cleanMrzLine x) -> cleanMrzLine x @ i = "<").
Proof.
  unfold cleanMrzLine. fold (repaired x).
  pose proof (repaired_length x) as R.
  destruct (repaired_repairs x) as [_ H].
  destruct (fixLength_at (repaired x) i) as [A B]. split.
  - intros L. rewrite A by lia. rewrite <- toUpperCase_at. apply H.
  - intros L. apply B. lia.
Qed.

(** X14. On a 7-bit line, apart from upper-casing, the only change the
    normalizer makes to a character of the line is to turn an S, L, C or K
    into a filler: every other character (digits in particular) comes out at
    its index as its upper case, and what is added behind the line is
    fillers only. *)
Theorem cleanMrzLine_changes_only_SLCK (x : jsstring) (i : nat) :
  sevenBit x ->
  (i < length x ->
   cleanMrzLine x @ i = toUpperChar (x @ i)
   \/ (cleanMrzLine x @ i = "<" /\ isSLCK (toUpperChar (x @ i)) = true))
  /\ (length x <= i < length (cleanMrzLine x) -> cleanMrzLine x @ i = "<")
  /\ (isDigit (x @ i) = true -> cleanMrzLine x @ i = x @ i).
Proof.
  intros _.
  destruct (cleanMrzLine_at x i) as [A B]. split; [exact A|]. split; [exact B|].
  intros D. assert (L : i < length x).
  { destruct (Nat.lt_ge_cases i (length x)) as [L|L]; [exact L|].
    unfold at_ in D. rewrite nth_overflow in D by exact L. discriminate. }
  assert (U : toUpperChar (x @ i) = x @ i /\ isSLCK (x @ i) = false).
  { revert D. generalize (x @ i). intros c. all_chars c; intros; try discriminate;
      now split. }
  destruct U as [U S]. destruct (A L) as [E | [_ E]]; rewrite U in E;
    [exact E | congruence].
Qed.

Lemma cleanMrzLine_changes_only_SLCK_witness :
  cleanMrzLine noisyLine1 @ 1 = "<"
  /\ cleanMrzLine damagedLine2 @ 3 = damagedLine2 @ 3.
Proof.
  split.
  - destruct (cleanMrzLine_changes_only_SLCK noisyLine1 1) as (A & _ & _);
      [reflexivity|].
    destruct A as [E | [E _]]; [cbn; lia | | exact E].
    vm_compute in E. discriminate E.
  - apply (cleanMrzLine_changes_only_SLCK damagedLine2 3); reflexivity.
Defined.

(** ** Normalizer: a second pass *)

Lemma cleanMrzLine_unpadded_fixed (x : jsstring) :
  length (cleanMrzLine x) = length x ->
  cleanMrzLine (cleanMrzLine x) = cleanMrzLine x.
Proof.
  intros L.
  assert (E : cleanMrzLine x = repaired x).
  { unfold cleanMrzLine. fold (repaired x).
    destruct (fixLength_cases (repaired x)) as [E | G]; [exact E|].
    unfold cleanMrzLine in L. fold (repaired x) in L.
    rewrite <- (repaired_length x) in L. lia. }
  rewrite E. unfold cleanMrzLine at 1.
  destruct (repaired_fixed x) as (U & S1 & S2 & S3).
  rewrite U, S1, S2, S3.
  rewrite <- E at 2. unfold cleanMrzLine. reflexivity.
Qed.

Lemma cleanMrzLine_second_length (x : jsstring) :
  length (cleanMrzLine (cleanMrzLine x)) = length (cleanMrzLine x).
Proof.
  destruct (cleanMrzLine_len_cases x) as [E | [(_ & E & _) | (_ & E & _)]].
  - now rewrite (cleanMrzLine_unpadded_fixed x E).
  - destruct (cleanMrzLine_len_cases (cleanMrzLine x))
      as [F | [(B & _) | (B & _)]]; [exact F | lia | lia].
  - destruct (cleanMrzLine_len_cases (cleanMrzLine x))
      as [F | [(B & _) | (B & _)]]; [exact F | lia | lia].
Qed.

(** X15. The normalizer settles after two passes: a second pass never
    changes the length again, and a third pass changes nothing at all. *)
Theorem cleanMrzLine_stable_after_two_passes (x : jsstring) :
  length (cleanMrzLine (cleanMrzLine x)) = length (cleanMrzLine x)
  /\ cleanMrzLine (cleanMrzLine (cleanMrzLine x)) = cleanMrzLine (cleanMrzLine x).
Proof.
  split; [apply cleanMrzLine_second_length|].
  apply cleanMrzLine_unpadded_fixed, cleanMrzLine_second_length.
Qed.

(** ** The lines that reach the resolver *)

Lemma at_In (s : jsstring) (c : ascii) :
  In c s -> exists i, i < length s /\ s @ i = c.
Proof. intros H. destruct (In_nth s c " " H) as (i & L & E). now exists i. Qed.

Lemma isSpace_not_lt : isSpace "<" = false /\ isLower "<" = false.
Proof. now split. Qed.

(** X16. On 7-bit text, every line handed to the resolver, that is every
    extracted line after normalization, is between 20 and 100 characters
    long and holds no white space and no lower-case letter. *)
Theorem normalized_lines (text l : jsstring) :
  sevenBit text ->
  In l (map cleanMrzLine (extractMrzFromText text)) ->
  20 <= length l <= 100
  /\ forall c, In c l -> isSpace c = false /\ isLower c = false.
Proof.
  intros _ H. apply in_map_iff in H. destruct H as (x & <- & I).
  destruct (extracted_line text x I) as (B & C & _). split.
  - destruct (cleanMrzLine_len_cases x) as [-> | [(K & -> & _) | (K & -> & _)]]; lia.
  - intros c J. apply at_In in J. destruct J as (i & L & <-).
    destruct (cleanMrzLine_at x i) as [A P].
    destruct (Nat.lt_ge_cases i (length x)) as [K | K].
    + destruct (A K) as [-> | [-> _]]; [|apply isSpace_not_lt].
      assert (J : In (x @ i) x) by (now apply nth_In).
      destruct (C _ J) as [S _]. rewrite toUpperChar_space.
      split; [exact S | apply toUpperChar_not_lower].
    + rewrite P by lia. apply isSpace_not_lt.
Qed.

Lemma normalized_lines_witness :
  let text := lit "p<kgz surname<<name<<<<<<<<<<<<<<<llk" in
  map cleanMrzLine (extractMrzFromText text) = [passportLine1]
  /\ 20 <= length passportLine1 <= 100.
Proof.
  cbv zeta. split; [reflexivity|].
  apply (normalized_lines (lit "p<kgz surname<<name<<<<<<<<<<<<<<<llk")).
  - reflexivity.
  - left. reflexivity.
Defined.

(** ** Dates *)

Ltac digit_cases c H :=
  destruct c as [[] [] [] [] [] [] [] []];
  try (exfalso; vm_compute in H; discriminate H).

Lemma year_digits (y1 y2 : ascii) :
  isDigit y1 = true -> isDigit y2 = true -> y1 <> "0" ->
  parseInt [y1; y2] RadixAuto
  = Some (Z.of_nat (10 * (code y1 - 48) + (code y2 - 48)))
  /\ showZ (Z.of_nat (10 * (code y1 - 48) + (code y2 - 48))) = [y1; y2].
Proof.
  intros D1 D2 N. digit_cases y1 D1; try (exfalso; now apply N);
    digit_cases y2 D2; vm_compute; split; reflexivity.
Qed.

Lemma isDigit_not_lt (c : ascii) : isDigit c = true -> isLt c = false.
Proof. all_chars c; discriminate. Qed.

(** X17. On a six-character date without fillers whose year is written
    with two decimal digits, the first not being 0, [formatYMD] gives the
    ten characters century, year, '-', month, '-', day, the century being
    "19" for a year above 50 and "20" for a year from 10 to 50; the month
    and day characters are copied as they are, digits or not. *)
Theorem formatYMD_century (y1 y2 m1 m2 d1 d2 : ascii) :
  isDigit y1 = true -> isDigit y2 = true -> y1 <> "0" ->
  isLt m1 = false -> isLt m2 = false -> isLt d1 = false -> isLt d2 = false ->
  formatYMD [y1; y2; m1; m2; d1; d2]
  = lit (if 50 <? 10 * (code y1 - 48) + (code y2 - 48) then "19" else "20")
    ++ [y1; y2; "-"; m1; m2; "-"; d1; d2].
Proof.
  intros D1 D2 N M1 M2 E1 E2.
  destruct (year_digits y1 y2 D1 D2 N) as [P S].
  unfold formatYMD. cbn [length Nat.eqb negb orb existsb].
  rewrite (isDigit_not_lt y1 D1), (isDigit_not_lt y2 D2), M1, M2, E1, E2.
  cbn [orb]. unfold substring. cbn [skipn Nat.sub firstn].
  rewrite P. unfold showNumber. rewrite S.
  set (yy := 10 * (code y1 - 48) + (code y2 - 48)).
  replace (50 <? Z.of_nat yy)%Z with (50 <? yy).
  - destruct (50 <? yy); reflexivity.
  - destruct (Nat.ltb_spec 50 yy), (Z.ltb_spec 50 (Z.of_nat yy)); trivial; lia.
Qed.

Lemma formatYMD_century_witness :
  formatYMD (lit "510230") = lit "1951-02-30"
  /\ formatYMD (lit "500230") = lit "2050-02-30".
Proof.
  split.
  - apply (formatYMD_century "5" "1" "0" "2" "3" "0"); try reflexivity.
    discriminate.
  - apply (formatYMD_century "5" "0" "0" "2" "3" "0"); try reflexivity.
    discriminate.
Defined.

(** ** Decoded fields *)

Lemma removeLt_noFiller (s : jsstring) : noFiller (removeLt s).
Proof.
  intros c H. unfold removeLt in H. apply filter_In in H.
  destruct H as [_ H]. now apply negb_true_iff in H.
Qed.

Lemma removeLt_length (a b : nat) (s : jsstring) :
  length (removeLt (substring a b s)) <= b - a.
Proof.
  unfold removeLt, substring.
  etransitivity; [apply filter_length_le|]. rewrite length_firstn. lia.
Qed.

Lemma trimStart_In (s : jsstring) (c : ascii) : In c (trimStart s) -> In c s.
Proof.
  induction s as [|a r IH]; [trivial|]. cbn [trimStart].
  destruct (isSpace a); [intros H; right; now apply IH | trivial].
Qed.

Lemma trim_In (s : jsstring) (c : ascii) : In c (trim s) -> In c s.
Proof.
  unfold trim, trimEnd. intros H. apply in_rev in H. apply trimStart_In in H.
  apply in_rev in H. now apply trimStart_In in H.
Qed.

Lemma ltToSpace_noFiller (s : jsstring) : noFiller (ltToSpace s).
Proof.
  intros c H. unfold ltToSpace in H. apply in_map_iff in H.
  destruct H as (a & <- & _). destruct (isLt a) eqn:E; [reflexivity | exact E].
Qed.

Lemma trim_ltToSpace_noFiller (s : jsstring) : noFiller (trim (ltToSpace s)).
Proof. intros c H. apply trim_In in H. now apply ltToSpace_noFiller in H. Qed.

Lemma trimStart_head (s : jsstring) (c : ascii) (r : jsstring) :
  trimStart s = c :: r -> isSpace c = false.
Proof.
  induction s as [|a t IH]; [discriminate|]. cbn [trimStart].
  destruct (isSpace a) eqn:E; [exact IH|]. intros [= <- _]. exact E.
Qed.

Lemma trimStart_keeps_last (l : jsstring) (c : ascii) :
  isSpace c = false -> exists u, trimStart (l ++ [c]) = u ++ [c].
Proof.
  intros N. induction l as [|a t IH]; cbn [app trimStart].
  - rewrite N. now exists [].
  - destruct (isSpace a); [exact IH|]. now exists (a :: t).
Qed.

Lemma trim_trimmed (s : jsstring) : trimmed (trim s).
Proof.
  unfold trim, trimEnd. split.
  - intros c r E. destruct (trimStart s) as [|a t] eqn:T; [discriminate|].
    pose proof (trimStart_head _ _ _ T) as N.
    cbn [rev] in E. destruct (trimStart_keeps_last (rev t) a N) as (u & K).
    rewrite K, rev_app_distr in E. cbn in E. now injection E as <- _.
  - intros c r E. apply (f_equal (@rev ascii)) in E.
    rewrite rev_involutive, rev_app_distr in E. cbn in E.
    now apply trimStart_head in E.
Qed.

Lemma surnameOf_clean (parts : list jsstring) :
  noFiller (surnameOf parts) /\ trimmed (surnameOf parts).
Proof. split; [apply trim_ltToSpace_noFiller | apply trim_trimmed]. Qed.

Lemma givenNamesOf_clean (parts : list jsstring) :
  noFiller (givenNamesOf parts) /\ trimmed (givenNamesOf parts).
Proof.
  unfold givenNamesOf. destruct (1 <? length parts).
  - split; [apply trim_ltToSpace_noFiller | apply trim_trimmed].
  - split; [intros c []|]. split; intros c r E; [discriminate|].
    destruct r; discriminate.
Qed.

(** X18. In every record a decoder returns, the document number, series,
    nationality and personal number hold no filler and are at most 9, 2, 3
    and 15 characters long, and the surname and the given names hold no
    filler and neither start nor end with white space.  (The two dates are
    not covered: a date field holding a filler is passed on as it is.) *)
Theorem decoded_fields_hold_no_filler (lines : list jsstring) (r : UnifiedMrzResult) :
  tryParseCustom lines = Some r ->
  (noFiller (document_number r) /\ length (document_number r) <= 9)
  /\ (noFiller (series r) /\ length (series r) <= 2)
  /\ (noFiller (nationality r) /\ length (nationality r) <= 3)
  /\ (noFiller (personal_number r) /\ length (personal_number r) <= 15)
  /\ (noFiller (surname (names r)) /\ trimmed (surname (names r)))
  /\ (noFiller (given_names (names r)) /\ trimmed (given_names (names r))).
Proof.
  unfold tryParseCustom. destruct (_ && _).
  - destruct lines as [|l1 [|l2 rest]]; try discriminate.
    unfold parseTD3. intros H. injection H as <-.
    cbn [document_number series nationality personal_number names surname
         given_names].
    repeat split; try apply removeLt_noFiller; try apply surnameOf_clean;
      try apply givenNamesOf_clean;
      try (etransitivity; [apply removeLt_length|]; cbn; lia).
  - destruct (_ && _); [|discriminate].
    destruct lines as [|l1 [|l2 [|l3 rest]]]; try discriminate.
    unfold parseTD1. intros H. injection H as <-.
    cbn [document_number series nationality personal_number names surname
         given_names].
    repeat split; try apply removeLt_noFiller; try apply surnameOf_clean;
      try apply givenNamesOf_clean;
      try (etransitivity; [apply removeLt_length|]; cbn; lia).
Qed.

Lemma decoded_fields_hold_no_filler_witness :
  exists r,
    tryParseCustom [passportLine1; passportLine2] = Some r
    /\ document_number r = lit "A1234567"
    /\ noFiller (document_number r) /\ length (document_number r) <= 9.
Proof.
  eexists. split; [vm_compute; reflexivity|]. split; [reflexivity|].
  eapply (proj1 (decoded_fields_hold_no_filler [passportLine1; passportLine2] _ _)).
  Unshelve. vm_compute. reflexivity.
Defined.

(** X19. [parseTD3] reads line 1 only from column 5 on: two first lines
    with the same name zone give the same record, up to the lines stored in
    it.  The document letter and the issuing state of columns 0 to 4 are
    never looked at, so any 44-character first line decodes as a
    PASSPORT. *)
Theorem parseTD3_ignores_first_columns (l1 l1' l2 : jsstring) :
  substring 5 44 l1 = substring 5 44 l1' ->
  parseTD3 [l1'; l2] = option_map (withLines [l1'; l2]) (parseTD3 [l1; l2]).
Proof.
  intros E. unfold parseTD3. rewrite E. reflexivity.
Qed.

Lemma parseTD3_ignores_first_columns_witness :
  exists r,
    parseTD3 [passportLine1; passportLine2] = Some r
    /\ parseTD3 [visaLine1; passportLine2]
       = Some (withLines [visaLine1; passportLine2] r)
    /\ document_type (withLines [visaLine1; passportLine2] r) = PASSPORT
    /\ verification_status (withLines [visaLine1; passportLine2] r) = VALID.
Proof.
  eexists. split; [reflexivity|]. split; [|split; reflexivity].
  apply (parseTD3_ignores_first_columns passportLine1 visaLine1 passportLine2).
  reflexivity.
Defined.

(** ** What the page shows *)

Lemma fits_dec (mrzLines : list jsstring) :
  (fits44 mrzLines \/ fits30 mrzLines)
  \/ (~ fits44 mrzLines /\ ~ fits30 mrzLines).
Proof. unfold fits44, fits30. lia. Qed.

(** X20. After a scan the page is in exactly one of three states.  With
    fewer than two normalized lines it shows the "could not detect" error,
    no result, and the recognized text as raw text.  With two lines or more
    that fit neither layout (see [fits44], [fits30]) it shows the "parsing
    failed" error and no result.  Otherwise it shows no error and the
    result built from the record of the resolver. *)
Theorem afterRecognition_states (text : jsstring) :
  let mrzLines := map cleanMrzLine (extractMrzFromText text) in
  let s := afterRecognition text in
  (length mrzLines < 2
   /\ error s = Some notDetectedMessage /\ parsedResult s = None
   /\ rawMrzText s = text)
  \/ (2 <= length mrzLines /\ ~ fits44 mrzLines /\ ~ fits30 mrzLines
      /\ error s = Some notFittedMessage /\ parsedResult s = None
      /\ rawMrzText s = join ["010"] mrzLines)
  \/ (2 <= length mrzLines /\ (fits44 mrzLines \/ fits30 mrzLines)
      /\ error s = None
      /\ rawMrzText s = join ["010"] mrzLines
      /\ exists r, resolveLines mrzLines = Some r
                   /\ parsedResult s = Some (toMrzResult r)).
Proof.
  cbv zeta. unfold afterRecognition.
  set (mrzLines := map cleanMrzLine (extractMrzFromText text)).
  destruct (Nat.ltb_spec (length mrzLines) 2) as [L | L].
  - left. repeat split; trivial.
  - right. pose proof (resolveLines_none mrzLines) as N.
    destruct (resolveLines mrzLines) as [r|] eqn:E.
    + right. cbn [error parsedResult rawMrzText]. repeat split; trivial.
      * destruct (fits_dec mrzLines) as [F | F]; [exact F|].
        apply N in F. discriminate.
      * now exists r.
    + left. cbn [error parsedResult rawMrzText].
      destruct N as [N _]. specialize (N eq_refl). tauto.
Qed.

Lemma resolved_status (mrzLines : list jsstring) (r : UnifiedMrzResult) :
  resolveLines mrzLines = Some r ->
  (verification_status r = VALID <-> errors r = [])
  /\ ((document_type r = PASSPORT /\ length (raw_lines r) = 2)
      \/ (document_type r = ID_CARD /\ length (raw_lines r) = 3)).
Proof.
  intros H. apply resolveLines_from in H. destruct H as (b & E & _).
  split; [now apply (tryParseCustom_status b)|].
  destruct (tryParseCustom_some b r E) as [-> [[(x & y & -> & _) D] | [(x & y & z & -> & _) D]]];
    [left | right]; now split.
Qed.

(** X21. In every result the page shows, the [valid] flag is set exactly
    when the list of details is empty, the document type reads "Passport
    (TD-3)" for a record decoded from two lines and "ID Card (TD-1)" for one
    decoded from three, and the issuing country shown is the nationality
    field of the record. *)
Theorem shown_result_is_coherent (text : jsstring) (d : MrzResult.t) :
  parsedResult (afterRecognition text) = Some d ->
  (MrzResult.valid d = true <-> MrzResult.details d = [])
  /\ ((MrzResult.documentType d = lit "Passport (TD-3)"
       /\ length (raw_lines (MrzResult.unifiedJson d)) = 2)
      \/ (MrzResult.documentType d = lit "ID Card (TD-1)"
          /\ length (raw_lines (MrzResult.unifiedJson d)) = 3))
  /\ MrzResult.issuingCountry d = nationality (MrzResult.unifiedJson d).
Proof.
  unfold afterRecognition. cbv zeta.
  destruct (_ <? 2); [discriminate|]. cbn [parsedResult].
  destruct (resolveLines _) as [r|] eqn:E; [|discriminate].
  intros [= <-]. destruct (resolved_status _ r E) as [V T].
  cbn [toMrzResult MrzResult.valid MrzResult.details MrzResult.documentType
       MrzResult.unifiedJson MrzResult.issuingCountry].
  repeat split.
  - intros H. destruct (verification_status r); [|discriminate].
    destruct V as [V _]. now rewrite (V eq_refl).
  - intros H. destruct (errors r) as [|e es]; [|discriminate].
    destruct V as [_ V]. now rewrite (V eq_refl).
  - destruct T as [[-> T] | [-> T]]; [left | right]; now split.
Qed.

Lemma shown_result_is_coherent_witness :
  exists d,
    parsedResult (afterRecognition (passportLine1 ++ ["010"] ++ damagedLine2))
    = Some d
    /\ MrzResult.valid d = false
    /\ (MrzResult.valid d = true <-> MrzResult.details d = []).
Proof.
  eexists. split; [vm_compute; reflexivity|]. split; [reflexivity|].
  eapply (proj1 (shown_result_is_coherent
                   (passportLine1 ++ ["010"] ++ damagedLine2) _ _)).
  Unshelve. vm_compute. reflexivity.
Defined.

(** ** Lines above the zone *)

Lemma sliceLast_app (n : nat) (pre mrzLines : list jsstring) :
  n <= length mrzLines ->
  sliceLast n (pre ++ mrzLines) = sliceLast n mrzLines.
Proof.
  intros L. unfold sliceLast. rewrite length_app, skipn_app.
  rewrite skipn_all2 by lia. cbn [app]. f_equal. lia.
Qed.

(** X22. Only the last three lines count: lines standing above them, however
    many and whatever they hold, do not change what the resolver returns. *)
Theorem resolveLines_last_three (pre mrzLines : list jsstring) :
  3 <= length mrzLines ->
  resolveLines (pre ++ mrzLines) = resolveLines mrzLines.
Proof.
  intros L. unfold resolveLines, tryTD1, tryTD3.
  rewrite !sliceLast_app by lia. rewrite length_app.
  replace (2 <=? length pre + length mrzLines) with true
    by (symmetry; apply Nat.leb_le; lia).
  replace (3 <=? length pre + length mrzLines) with true
    by (symmetry; apply Nat.leb_le; lia).
  replace (2 <=? length mrzLines) with true by (symmetry; apply Nat.leb_le; lia).
  replace (3 <=? length mrzLines) with true by (symmetry; apply Nat.leb_le; lia).
  reflexivity.
Qed.

Lemma resolveLines_last_three_witness :
  resolveLines ([damagedLine2; visaLine1] ++ [cardLine1; cardLine2; cardLine3])
  = resolveLines [cardLine1; cardLine2; cardLine3].
Proof.
  apply (resolveLines_last_three [damagedLine2; visaLine1]
           [cardLine1; cardLine2; cardLine3]).
  cbn. lia.
Defined.

(** ** Normalizer: when a second pass changes the line *)

Lemma repaired_clean (line : jsstring) :
  noLower (repaired line) /\ startClean (repaired line)
  /\ sepClean (repaired line).
Proof.
  unfold repaired. rewrite !fixTail_tailRepair.
  set (u := toUpperCase line). set (v := fixStart u). set (w := fixSeparators v).
  assert (Fvw : fills v w) by apply fixSeparators_fills.
  assert (Fwy : fills w (tailRepair w)) by apply tailRepair_fills.
  assert (Fuv : fills u v) by apply fixStart_fills.
  repeat split.
  - apply (fills_noLower w _ Fwy), (fills_noLower v _ Fvw), (fills_noLower u _ Fuv).
    apply toUpperCase_noLower.
  - apply (fills_startClean w _ Fwy), (fills_startClean v _ Fvw).
    apply fixStart_startClean.
  - apply (fills_startClean w _ Fwy), (fills_startClean v _ Fvw).
    apply fixStart_startClean.
  - apply tailRepair_sepClean, fixSeparators_sepClean.
Qed.

Lemma fillers_at (r : jsstring) (n i : nat) :
  (i < length r -> (r ++ repeat "<" n) @ i = r @ i)
  /\ (length r <= i ->
      (r ++ repeat "<" n) @ i = "<" \/ (r ++ repeat "<" n) @ i = " ").
Proof.
  unfold at_. split; intros L.
  - now apply app_nth1.
  - rewrite app_nth2 by lia.
    destruct (Nat.lt_ge_cases (i - length r) n) as [K | K].
    + left. now apply nth_repeat_lt.
    + right. apply nth_overflow. now rewrite repeat_length.
Qed.

Lemma noLower_fillers (r : jsstring) (n : nat) :
  noLower r -> noLower (r ++ repeat "<" n).
Proof.
  intros N i. destruct (fillers_at r n i) as [A B].
  destruct (Nat.lt_ge_cases i (length r)) as [L | L].
  - rewrite A by exact L. apply N.
  - destruct (B L) as [-> | ->]; reflexivity.
Qed.

Lemma sepClean_fillers (r : jsstring) (n : nat) :
  sepClean r -> sepClean (r ++ repeat "<" n).
Proof.
  intros C i. set (y := r ++ repeat "<" n).
  assert (Same : forall j, j < length r -> y @ j = r @ j)
    by (intros j; apply fillers_at).
  assert (NoUp : forall j, length r <= j -> isUpper (y @ j) = false).
  { intros j L. destruct (proj2 (fillers_at r n j) L) as [E | E];
      unfold y; rewrite E; reflexivity. }
  destruct (sepPos y i) eqn:E; [exfalso | reflexivity].
  destruct i as [|[|j]]; [discriminate| |].
  - assert (L : 2 < length r).
    { destruct (Nat.lt_ge_cases 2 (length r)) as [L|L]; [exact L|].
      unfold sepPos in E. rewrite (NoUp 2 L), andb_false_r in E. discriminate. }
    specialize (C 1). unfold sepPos in *.
    rewrite !Same in E by lia. congruence.
  - assert (L : S (S (S j)) < length r).
    { destruct (Nat.lt_ge_cases (S (S (S j))) (length r)) as [L|L]; [exact L|].
      unfold sepPos, sepCond in E.
      rewrite (NoUp _ L), andb_false_r in E. discriminate. }
    specialize (C (S (S j))). unfold sepPos in *.
    rewrite !Same in E by lia. congruence.
Qed.

Lemma startsWith_lt_startClean (p : ascii) (s : jsstring) :
  startsWith [p; "<"] s = true -> startClean s.
Proof.
  destruct s as [|a [|b rest]]; cbn [startsWith]; try discriminate.
  - rewrite andb_false_r. discriminate.
  - intros H. apply andb_true_iff in H. destruct H as [_ H].
    apply andb_true_iff in H. destruct H as [H _].
    apply Ascii.eqb_eq in H. subst b. split; apply startMatches_second_lt.
Qed.

Lemma padded_second_pass (p : ascii) (n : nat) (r : jsstring) :
  noLower r -> sepClean r -> startsWith [p; "<"] r = true ->
  length r <= n -> (n = 44 \/ n = 30) ->
  cleanMrzLine (padEnd n r) = fixTail (padEnd n r).
Proof.
  intros N C S L W. unfold cleanMrzLine.
  assert (Ly : length (padEnd n r) = n) by (rewrite padEnd_length; lia).
  unfold padEnd in *.
  rewrite (noLower_toUpperCase _ (noLower_fillers r _ N)).
  rewrite (startClean_fixStart _
             (startsWith_lt_startClean p _ (startsWith_app _ _ _ S))).
  rewrite (sepClean_fixSeparators _ (sepClean_fillers r _ C)).
  destruct (fixLength_length (fixTail (r ++ repeat "<" (n - length r))))
    as [E | [(B & _) | (B & _)]]; [exact E | exfalso | exfalso];
    rewrite fixTail_tailRepair, tailRepair_length, Ly in B; lia.
Qed.

Lemma cleanMrzLine_second_pass (x : jsstring) :
  cleanMrzLine (cleanMrzLine x) = fixTail (cleanMrzLine x).
Proof.
  destruct (repaired_clean x) as (N & _ & C).
  destruct (repaired_fixed x) as (_ & _ & _ & T).
  pose proof (repaired_length x) as R.
  assert (K : cleanMrzLine x = fixLength (repaired x)) by reflexivity.
  destruct (fixLength_length (repaired x)) as [E | [(B & E & S) | (B & E & S)]].
  - rewrite E in K. rewrite cleanMrzLine_unpadded_fixed by (rewrite K; exact R).
    rewrite K. symmetry. exact T.
  - rewrite K, E. apply (padded_second_pass "P"); trivial; [lia | now left].
  - rewrite K, E. apply (padded_second_pass "I"); trivial; [lia | now right].
Qed.

Lemma toFiller_fixed (s : jsstring) :
  map toFiller s = s -> existsb isLCK s = false.
Proof.
  induction s as [|c r IH]; [reflexivity|]. cbn [map existsb].
  intros [= E1 E2]. rewrite (IH E2), orb_false_r.
  unfold toFiller in E1. destruct (isLCK c) eqn:K; [|reflexivity].
  subst c. discriminate.
Qed.

Lemma pendingTail_changes (pre tail : jsstring) :
  3 <= length tail -> forallb isLCKLt tail = true -> existsb isLCK tail = true ->
  tailRepair (pre ++ tail) <> pre ++ tail.
Proof.
  intros L A X. induction pre as [|a pre IH].
  - cbn [app]. destruct tail as [|c t]; [discriminate|].
    cbn [tailRepair]. rewrite A. apply Nat.leb_le in L. rewrite L. cbn [andb].
    intros E. apply toFiller_fixed in E. congruence.
  - cbn [app tailRepair]. destruct (_ && _).
    + intros E. apply toFiller_fixed in E. cbn [existsb] in E.
      apply orb_false_iff in E. destruct E as [_ E].
      rewrite existsb_app, X, orb_true_r in E. discriminate.
    + intros [= E]. now apply IH.
Qed.

Lemma tailRepair_fixed_iff (y : jsstring) :
  tailRepair y = y <-> ~ pendingTail y.
Proof.
  split.
  - intros E (pre & tail & -> & L & A & (c & I & K)). revert E.
    apply pendingTail_changes; trivial.
    + apply forallb_forall. exact A.
    + apply existsb_exists. now exists c.
  - induction y as [|a r IH]; intros N; [reflexivity|]. cbn [tailRepair].
    destruct (forallb isLCKLt (a :: r) && (3 <=? length (a :: r))) eqn:C.
    + apply toFiller_no_LCK.
      destruct (existsb isLCK (a :: r)) eqn:X; [exfalso | reflexivity].
      apply N. exists [], (a :: r). apply andb_true_iff in C.
      destruct C as [A L]. apply Nat.leb_le in L. repeat split; trivial.
      * intros c. now apply forallb_forall.
      * apply existsb_exists in X. destruct X as (c & I & K). now exists c.
    + f_equal. apply IH. intros (pre & tail & -> & P). apply N.
      now exists (a :: pre), tail.
Qed.

(** C6 (as amended). A second pass of the normalizer is its tail repair
    alone, so the normalizer is idempotent on a line exactly when the
    normalized line does not end in three or more characters of the class
    [LCK<] that include an L, a C or a K.  Such an ending is only ever left
    behind by the length repair: the normalized line is then a line padded
    to 44 columns that starts with "P<" or one padded to 30 columns that
    starts with "I<", and a line that rule 4 has not padded is a fixed
    point. *)
Theorem cleanMrzLine_idempotent_iff (x : jsstring) :
  (cleanMrzLine (cleanMrzLine x) = cleanMrzLine x
   <-> ~ pendingTail (cleanMrzLine x))
  /\ (pendingTail (cleanMrzLine x) ->
      (length (cleanMrzLine x) = 44
       /\ startsWith (lit "P<") (cleanMrzLine x) = true)
      \/ (length (cleanMrzLine x) = 30
          /\ startsWith (lit "I<") (cleanMrzLine x) = true))
  /\ (cleanMrzLine x = repaired x ->
      cleanMrzLine (cleanMrzLine x) = cleanMrzLine x).
Proof.
  assert (I : cleanMrzLine (cleanMrzLine x) = cleanMrzLine x
              <-> ~ pendingTail (cleanMrzLine x)).
  { rewrite cleanMrzLine_second_pass, fixTail_tailRepair.
    apply tailRepair_fixed_iff. }
  assert (U : cleanMrzLine x = repaired x ->
              cleanMrzLine (cleanMrzLine x) = cleanMrzLine x).
  { intros E. apply cleanMrzLine_unpadded_fixed. rewrite E.
    apply repaired_length. }
  split; [exact I|]. split; [|exact U].
  intros P.
  assert (K : cleanMrzLine x = fixLength (repaired x)) by reflexivity.
  destruct (fixLength_length (repaired x)) as [E | [(B & E & S) | (B & E & S)]].
  - exfalso. apply I; [|exact P]. apply U. now rewrite K.
  - left. rewrite K, E. split; [rewrite padEnd_length; lia|].
    now apply startsWith_app.
  - right. rewrite K, E. split; [rewrite padEnd_length; lia|].
    now apply startsWith_app.
Qed.

Lemma cleanMrzLine_idempotent_iff_witness :
  length cutLine1 = 35
  /\ cleanMrzLine cutLine1 = passportLine1
  /\ ~ pendingTail (cleanMrzLine cutLine1)
  /\ cleanMrzLine (cleanMrzLine noisyLine1) = cleanMrzLine noisyLine1.
Proof.
  split; [reflexivity|]. split; [reflexivity|]. split.
  - apply (proj1 (proj1 (cleanMrzLine_idempotent_iff cutLine1))). reflexivity.
  - apply (proj2 (proj2 (cleanMrzLine_idempotent_iff noisyLine1))). reflexivity.
Defined.
